(** * Structure learning of sum-product networks: the operation policy and
      the worklist-driven builder of [spn/algorithms/StructureLearning.py].

    The development is a shallow embedding.  Python objects that the builder
    mutates through references (the [Sum] and [Product] nodes under
    construction) live in an explicit heap; the body of the [while tasks:]
    loop is written in a small state-and-exception monad over the heap and
    the task queue; numpy arrays are seen through the interface [NdArray],
    which exposes exactly what the source asks of them. *)

From Stdlib Require Import ZArith QArith String Lia.
From stdpp Require Import base tactics option list numbers sorting.

Set Default Proof Using "Type".
Local Open Scope Z_scope.
Local Open Scope nat_scope.

(** ** Operations, exceptions, results *)

(** [class Operation(Enum)]. *)
Inductive Operation : Type :=
  | CREATE_LEAF
  | SPLIT_COLUMNS
  | SPLIT_ROWS
  | NAIVE_FACTORIZATION
  | REMOVE_UNINFORMATIVE_FEATURES.

Definition Operation_value (op : Operation) : Z :=
  match op with
  | CREATE_LEAF => 1
  | SPLIT_COLUMNS => 2
  | SPLIT_ROWS => 3
  | NAIVE_FACTORIZATION => 4
  | REMOVE_UNINFORMATIVE_FEATURES => 5
  end%Z.

(** The Python exceptions the modelled code can raise. *)
Inductive Exn : Type :=
  | AssertionError
  | IndexError
  | KeyError
  | TypeError
  | AttributeError.

(** A pure computation that returns or raises. *)
Inductive pyres (A : Type) : Type :=
  | Ok (a : A)
  | Raise (e : Exn).
Arguments Ok {A} a.
Arguments Raise {A} e.

(** A scope is a Python list of column identifiers. *)
Abbreviation Scope := (list nat) (only parsing).

(** ** The array interface

    What the source asks of [data]: its two dimensions, whether the variance
    numpy computes for a column compares equal to zero
    ([np.var(data[:, 0:k], 0) == 0], column by column), and the two column
    selections of [default_slicer].  Floating point is not modelled: the test
    [var == 0] is an oracle of the interface, so every theorem about the
    policy holds for whatever numpy answers. *)
Class NdArray (D : Type) : Type := {
  shape0 : D -> nat;
  shape1 : D -> nat;
  var_is_zero : D -> nat -> bool;
  (* data[:, cols] *)
  index_cols : D -> list nat -> D;
  (* data[:, c].reshape((-1, 1)) *)
  index_col_reshaped : D -> nat -> D
}.

(** [np.sum] of a boolean array. *)
Definition np_sum (mask : list bool) : nat :=
  length (filter (fun b : bool => b = true) mask).

(** [xs[mask]] for a boolean numpy array [mask]: the entries of [xs] where the
    mask is set; numpy raises [IndexError] when the two lengths differ. *)
Definition mask_select {A : Type} (xs : list A) (mask : list bool) : pyres (list A) :=
  if length mask =? length xs
  then Ok (fst <$> filter (fun p : A * bool => snd p = true) (zip xs mask))
  else Raise IndexError.

(** ** The operation policy *)

Section Policy.
Context {D : Type} `{NdArray D}.

(** The inner function [next_operation] of [get_next_operation]; the
    closure variable [min_instances_slice] is its first argument. *)
Definition next_operation (min_instances_slice : Z) (data : D) (scope : Scope)
    (no_clusters no_independencies is_first cluster_first cluster_univariate : bool)
    : pyres (Operation * option (list nat)) :=
  let minimalFeatures := length scope =? 1 in
  let minimalInstances := (Z.of_nat (shape0 data) <=? min_instances_slice)%Z in
  if minimalFeatures then
    if minimalInstances || no_clusters then Ok (CREATE_LEAF, None)
    else if cluster_univariate then Ok (SPLIT_ROWS, None)
    else Ok (CREATE_LEAF, None)
  else
    (* data[:, 0:len(scope)] has min(len(scope), data.shape[1]) columns *)
    let uninformative_features_idx :=
      var_is_zero data <$> seq 0 (length scope `min` shape1 data) in
    let ncols_zero_variance := np_sum uninformative_features_idx in
    if 0 <? ncols_zero_variance then
      if ncols_zero_variance =? shape1 data then Ok (NAIVE_FACTORIZATION, None)
      else
        match mask_select (seq 0 (length scope)) uninformative_features_idx with
        | Ok positions => Ok (REMOVE_UNINFORMATIVE_FEATURES, Some positions)
        | Raise e => Raise e
        end
    else if minimalInstances || (no_clusters && no_independencies)
    then Ok (NAIVE_FACTORIZATION, None)
    else if no_independencies then Ok (SPLIT_ROWS, None)
    else if no_clusters then Ok (SPLIT_COLUMNS, None)
    else if is_first then
      if cluster_first then Ok (SPLIT_ROWS, None) else Ok (SPLIT_COLUMNS, None)
    else Ok (SPLIT_COLUMNS, None).

(** A policy as [learn_structure] receives it: a Python function of seven
    parameters of which the last two have default values.  The call site of
    the builder names only the first five; the callee binds the other two to
    its own defaults. *)
Record PolicyFn : Type := {
  policy_body : D -> Scope -> bool -> bool -> bool -> bool -> bool ->
                pyres (Operation * option (list nat));
  default_cluster_first : bool;
  default_cluster_univariate : bool
}.

(** [get_next_operation(min_instances_slice)]: the closure, with the
    defaults of its signature, [cluster_first=True] and
    [cluster_univariate=False]. *)
Definition get_next_operation (min_instances_slice : Z) : PolicyFn :=
  {| policy_body := next_operation min_instances_slice;
     default_cluster_first := true;
     default_cluster_univariate := false |}.

(** [next_operation(data, scope, no_clusters=.., no_independencies=..,
    is_first=..)], the only form of call in the builder. *)
Definition call_policy (p : PolicyFn) (data : D) (scope : Scope)
    (no_clusters no_independencies is_first : bool)
    : pyres (Operation * option (list nat)) :=
  policy_body p data scope no_clusters no_independencies is_first
              (default_cluster_first p) (default_cluster_univariate p).

(** The positions of the zero-variance columns among the first [k], in
    ascending order: what the specification of the policy calls the
    zero-variance column positions. *)
Definition zero_variance_positions (data : D) (k : nat) : list nat :=
  filter (fun j => var_is_zero data j = true) (seq 0 k).

(** [default_slicer]. *)
Definition default_slicer (data : D) (cols : list nat) : D :=
  match cols with
  | [c] => index_col_reshaped data c
  | _ => index_cols data cols
  end.
End Policy.
Arguments PolicyFn D : clear implicits.

(** ** Heap, tasks and the builder's monad *)

(** A reference to a Python object: its address in the heap. *)
Abbreviation Ref := nat (only parsing).

Section Builder.
Context {D : Type} `{NdArray D}.
(** The opaque dataset context, the leaves that [create_leaf] returns and
    the proportions that [split_rows] returns (floats in the source, never
    inspected by the builder). *)
Context {Ctx L W : Type}.

(** Modelled from the spec: the node classes of [spn.structure.Base], which
    the file imports.  A [Sum] owns a scope, an ordered list of child slots
    and a matching list of weights; a [Product] owns a scope and child
    slots; both constructors start with empty lists.  A child slot holds
    [None] (the placeholder) or a reference to a node.  A leaf is whatever
    [create_leaf] returned. *)
Inductive Obj : Type :=
  | Sum (scope : Scope) (children : list (option Ref)) (weights : list W)
  | Product (scope : Scope) (children : list (option Ref))
  | Leaf (leaf : L).

(** The heap: the objects allocated so far, by address. *)
Local Abbreviation Heap := (list Obj).

(** The tuple [(local_data, parent, children_pos, scope, no_clusters,
    no_independencies)] that the deque holds. *)
Record Task : Type := mkTask {
  t_local_data : D;
  t_parent : Ref;
  t_children_pos : nat;
  t_scope : Scope;
  t_no_clusters : bool;
  t_no_independencies : bool
}.

(** The mutable state of one call: the objects allocated so far and the
    deque [tasks] (head of the list = left end). *)
Record State : Type := mkState {
  heap : Heap;
  tasks : list Task
}.

Inductive res (A : Type) : Type :=
  | Ret (a : A) (st : State)
  | Exc (e : Exn) (st : State).
Arguments Ret {A} a st.
Arguments Exc {A} e st.

Definition M (A : Type) : Type := State -> res A.

Definition ret {A : Type} (a : A) : M A := fun st => Ret a st.

Definition bind {A B : Type} (m : M A) (k : A -> M B) : M B :=
  fun st =>
    match m st with
    | Ret a st' => k a st'
    | Exc e st' => Exc e st'
    end.

Definition raise {A : Type} (e : Exn) : M A := fun st => Exc e st.

Definition lift {A : Type} (r : pyres A) : M A :=
  match r with
  | Ok a => ret a
  | Raise e => raise e
  end.

Local Notation "'let*' x ':=' m 'in' k" := (bind m (fun x => k))
  (at level 10, x pattern, m at level 100, k at level 200).

(** *** Primitive effects *)

(** A constructor call: the new object gets the next free address. *)
Definition new_object (o : Obj) : M Ref :=
  fun st => Ret (length (heap st)) (mkState (heap st ++ [o]) (tasks st)).

(** [Product()] and [Sum()]. *)
Definition new_Product : M Ref := new_object (Product [] []).
Definition new_Sum : M Ref := new_object (Sum [] [] []).

Definition obj_children (o : Obj) : pyres (list (option Ref)) :=
  match o with
  | Sum _ cs _ => Ok cs
  | Product _ cs => Ok cs
  | Leaf _ => Raise AttributeError
  end.

Definition obj_set_children (o : Obj) (cs : list (option Ref)) : Obj :=
  match o with
  | Sum s _ ws => Sum s cs ws
  | Product s _ => Product s cs
  | Leaf l => Leaf l
  end.

Definition obj_scope_extend (o : Obj) (s : Scope) : pyres Obj :=
  match o with
  | Sum sc cs ws => Ok (Sum (sc ++ s) cs ws)
  | Product sc cs => Ok (Product (sc ++ s) cs)
  | Leaf _ => Raise AttributeError
  end.

Definition obj_weights_append (o : Obj) (w : W) : pyres Obj :=
  match o with
  | Sum sc cs ws => Ok (Sum sc cs (ws ++ [w]))
  | _ => Raise AttributeError
  end.

(** Read the object behind a reference. *)
Definition deref (node : Ref) : M Obj :=
  fun st =>
    match heap st !! node with
    | Some o => Ret o st
    | None => Exc AttributeError st
    end.

(** Overwrite the object behind a reference (in-place mutation). *)
Definition store (node : Ref) (o : Obj) : M unit :=
  fun st => Ret tt (mkState (<[node := o]> (heap st)) (tasks st)).

(** [node.scope.extend(s)]. *)
Definition scope_extend (node : Ref) (s : Scope) : M unit :=
  let* o := deref node in
  let* o' := lift (obj_scope_extend o s) in
  store node o'.

(** [node.children.append(v)]. *)
Definition children_append (node : Ref) (v : option Ref) : M unit :=
  let* o := deref node in
  let* cs := lift (obj_children o) in
  store node (obj_set_children o (cs ++ [v])).

(** [len(node.children)]. *)
Definition children_len (node : Ref) : M nat :=
  let* o := deref node in
  let* cs := lift (obj_children o) in
  ret (length cs).

(** [node.children[pos] = v]; Python raises [IndexError] out of range. *)
Definition children_setitem (node : Ref) (pos : nat) (v : option Ref) : M unit :=
  let* o := deref node in
  let* cs := lift (obj_children o) in
  if decide (pos < length cs)
  then store node (obj_set_children o (<[pos := v]> cs))
  else raise IndexError.

(** [node.children[pos]]. *)
Definition children_getitem (node : Ref) (pos : nat) : M (option Ref) :=
  let* o := deref node in
  let* cs := lift (obj_children o) in
  match cs !! pos with
  | Some v => ret v
  | None => raise IndexError
  end.

(** [node.weights.append(w)]. *)
Definition weights_append (node : Ref) (w : W) : M unit :=
  let* o := deref node in
  let* o' := lift (obj_weights_append o w) in
  store node o'.

(** [tasks.append(t)]. *)
Definition tasks_append (t : Task) : M unit :=
  fun st => Ret tt (mkState (heap st) (tasks st ++ [t])).

(** [tasks.popleft()]. *)
Definition tasks_popleft : M Task :=
  fun st =>
    match tasks st with
    | t :: rest => Ret t (mkState (heap st) rest)
    | [] => Exc IndexError st
    end.

(** [xs[i]] on a Python list. *)
Definition list_getitem {A : Type} (xs : list A) (i : nat) : pyres A :=
  match xs !! i with
  | Some x => Ok x
  | None => Raise IndexError
  end.

(** [s.remove(x)] on a Python set of small non-negative integers.  The set
    is kept as the ascending list of its members, which is the order in
    which CPython iterates [set(range(n))] and what is left of it after
    removals. *)
Definition set_remove (x : nat) (s : list nat) : pyres (list nat) :=
  if decide (x ∈ s)
  then Ok (filter (fun y => y ≠ x) s)
  else Raise KeyError.

(** *** The collaborators of one call *)

Definition Splitter : Type := D -> Ctx -> Scope -> list (D * Scope * W).

Record Env : Type := mkEnv {
  ds_context : Ctx;
  split_rows : Splitter;
  split_cols : Splitter;
  create_leaf : D -> Ctx -> Scope -> L;
  policy : PolicyFn D;
  data_slicer : D -> list nat -> D
}.

(** The functions that the file imports from the rest of the library and
    calls after the loop.  They work on the object graph, here the heap and a
    reference into it: [assign_ids] mutates in place, [Prune] returns a
    possibly different root, [is_valid] answers with a flag and a message. *)
Record Imports : Type := mkImports {
  assign_ids : Heap -> option Ref -> Heap;
  Prune : Heap -> option Ref -> Heap * option Ref;
  is_valid : Heap -> option Ref -> bool * string
}.

(** *** The five handlers of the loop *)

Section Handlers.
Variable env : Env.

(** [for col in op_params: ...] of the REMOVE_UNINFORMATIVE_FEATURES branch;
    the local [rest_scope] is threaded through and returned. *)
Fixpoint for_uninformative (node : Ref) (local_data : D) (scope : Scope)
    (op_params : list nat) (rest_scope : list nat) : M (list nat) :=
  match op_params with
  | [] => ret rest_scope
  | col :: op_params' =>
      let* rest_scope := lift (set_remove col rest_scope) in
      let* _ := children_append node None in
      let data_slice := data_slicer env local_data [col] in
      let* n := children_len node in
      let* ident := lift (list_getitem scope col) in
      let* _ := tasks_append (mkTask data_slice node (n - 1) [ident] true true) in
      for_uninformative node local_data scope op_params' rest_scope
  end.

(** [for data_slice, scope_slice, proportion in data_slices: ...] of the
    SPLIT_ROWS branch.  The assertion on [scope_slice] holds by typing. *)
Fixpoint for_row_slices (node : Ref) (scope : Scope)
    (data_slices : list (D * Scope * W)) : M unit :=
  match data_slices with
  | [] => ret tt
  | (data_slice, scope_slice, proportion) :: data_slices' =>
      let* _ := children_append node None in
      let* _ := weights_append node proportion in
      let* n := children_len node in
      let* _ := tasks_append (mkTask data_slice node (n - 1) scope false false) in
      for_row_slices node scope data_slices'
  end.

(** [for data_slice, scope_slice, _ in data_slices: ...] of the SPLIT_COLUMNS
    branch. *)
Fixpoint for_col_slices (node : Ref) (data_slices : list (D * Scope * W)) : M unit :=
  match data_slices with
  | [] => ret tt
  | (data_slice, scope_slice, _) :: data_slices' =>
      let* _ := children_append node None in
      let* n := children_len node in
      let* _ := tasks_append (mkTask data_slice node (n - 1) scope_slice false false) in
      for_col_slices node data_slices'
  end.

(** [for col in range(len(scope)): ...] of the NAIVE_FACTORIZATION branch. *)
Fixpoint for_columns (node : Ref) (local_data : D) (scope : Scope)
    (cols : list nat) : M unit :=
  match cols with
  | [] => ret tt
  | col :: cols' =>
      let* _ := children_append node None in
      let data_slice := data_slicer env local_data [col] in
      let* n := children_len node in
      let* ident := lift (list_getitem scope col) in
      let* _ := tasks_append (mkTask data_slice node (n - 1) [ident] true true) in
      for_columns node local_data scope cols'
  end.

(** The [if]/[elif] chain on [operation], for the task just popped.  The
    final [else: raise Exception] has no counterpart: [Operation] is closed. *)
Definition handle (t : Task) (operation : Operation)
    (op_params : option (list nat)) : M unit :=
  let local_data := t_local_data t in
  let parent := t_parent t in
  let children_pos := t_children_pos t in
  let scope := t_scope t in
  match operation with
  | REMOVE_UNINFORMATIVE_FEATURES =>
      let* node := new_Product in
      let* _ := scope_extend node scope in
      let* _ := children_setitem parent children_pos (Some node) in
      let rest_scope := seq 0 (length scope) in
      let* cols := lift (match op_params with
                         | Some cols => Ok cols
                         | None => Raise TypeError
                         end) in
      let* rest_scope := for_uninformative node local_data scope cols rest_scope in
      let* _ := children_append node None in
      let* n := children_len node in
      let c_pos := n - 1 in
      let next_final := length rest_scope =? 1 in
      tasks_append (mkTask (data_slicer env local_data rest_scope) node c_pos
                           rest_scope next_final next_final)
  | SPLIT_ROWS =>
      let data_slices := split_rows env local_data (ds_context env) scope in
      if length data_slices =? 1 then
        tasks_append (mkTask local_data parent children_pos scope true false)
      else
        let* node := new_Sum in
        let* _ := scope_extend node scope in
        let* _ := children_setitem parent children_pos (Some node) in
        for_row_slices node scope data_slices
  | SPLIT_COLUMNS =>
      let data_slices := split_cols env local_data (ds_context env) scope in
      if length data_slices =? 1 then
        tasks_append (mkTask local_data parent children_pos scope false true)
      else
        let* node := new_Product in
        let* _ := scope_extend node scope in
        let* _ := children_setitem parent children_pos (Some node) in
        for_col_slices node data_slices
  | NAIVE_FACTORIZATION =>
      let* node := new_Product in
      let* _ := scope_extend node scope in
      let* _ := children_setitem parent children_pos (Some node) in
      for_columns node local_data scope (seq 0 (length scope))
  | CREATE_LEAF =>
      let* node := new_object (Leaf (create_leaf env local_data (ds_context env) scope)) in
      children_setitem parent children_pos (Some node)
  end.

(** The keyword argument [is_first=(parent is root)]. *)
Definition is_first_arg (root : Ref) (t : Task) : bool :=
  bool_decide (t_parent t = root).

(** One iteration of [while tasks:]: pop, ask the policy, dispatch. *)
Definition loop_body (root : Ref) : M unit :=
  let* t := tasks_popleft in
  let* decision := lift (call_policy (policy env) (t_local_data t) (t_scope t)
                           (t_no_clusters t) (t_no_independencies t)
                           (is_first_arg root t)) in
  handle t (fst decision) (snd decision).

(** How a run of the loop, or of the whole call, ends within the fuel. *)
Inductive outcome (A : Type) : Type :=
  | Finished (a : A) (st : State)
  | Failed (e : Exn) (st : State)
  | OutOfFuel (st : State).

(** [while tasks: ...], unrolled at most [fuel] times. *)
Fixpoint while_tasks (fuel : nat) (root : Ref) (st : State) : outcome unit :=
  match tasks st with
  | [] => Finished unit tt st
  | _ :: _ =>
      match fuel with
      | 0 => OutOfFuel unit st
      | S fuel' =>
          match loop_body root st with
          | Ret _ st' => while_tasks fuel' root st'
          | Exc e st' => Failed unit e st'
          end
      end
  end.

(** [root = Product(); root.children.append(None); tasks = deque();
    tasks.append((dataset, root, 0, initial_scope, False, False))]. *)
Definition setup (dataset : D) (initial_scope : Scope) : M Ref :=
  let* root := new_Product in
  let* _ := children_append root None in
  let* _ := tasks_append (mkTask dataset root 0 initial_scope false false) in
  ret root.

(** The lines after the loop: unwrap the root, assign identifiers, prune,
    validate, return. *)
Definition post_processing (imp : Imports) (root : Ref) : M (option Ref) :=
  let* node := children_getitem root 0 in
  let* _ := (fun st => Ret tt (mkState (assign_ids imp (heap st) node) (tasks st))) in
  let* node := (fun st => let pruned := Prune imp (heap st) node in
                          Ret (snd pruned) (mkState (fst pruned) (tasks st))) in
  let* verdict := (fun st => Ret (is_valid imp (heap st) node) st) in
  if fst verdict then ret node else raise AssertionError.
End Handlers.
Arguments Finished {A} a st.
Arguments Failed {A} e st.
Arguments OutOfFuel {A} st.

(** Allocation of a node, [node.scope.extend(scope)] and the assignment to
    the slot of the parent: the common prefix of the four branches that
    create a node, used to state what they do. *)
Definition splice (new_node : M Ref) (scope : Scope) (parent : Ref) (pos : nat)
    : M Ref :=
  let* node := new_node in
  let* _ := scope_extend node scope in
  let* _ := children_setitem parent pos (Some node) in
  ret node.

(** The state in which a call starts: nothing allocated, no deque yet. *)
Definition empty_state : State := mkState [] [].

(** [learn_structure].  An argument that may be [None] is an [option]; the
    default of [initial_scope] is computed in the body as in the source, the
    defaults of [next_operation] and [data_slicer] are left to the caller
    ([Some (get_next_operation 100)] and [default_slicer]). *)
Definition learn_structure (imp : Imports) (fuel : nat)
    (dataset : option D) (ds_context : option Ctx)
    (split_rows split_cols : option Splitter)
    (create_leaf : option (D -> Ctx -> Scope -> L))
    (next_operation : option (PolicyFn D))
    (initial_scope : option Scope)
    (data_slicer : D -> list nat -> D) : outcome (option Ref) :=
  match dataset, ds_context, split_rows, split_cols, create_leaf, next_operation with
  | Some dataset, Some ds_context, Some split_rows, Some split_cols,
    Some create_leaf, Some next_operation =>
      let env := mkEnv ds_context split_rows split_cols create_leaf
                       next_operation data_slicer in
      let initial_scope :=
        match initial_scope with
        | Some s => s
        | None => seq 0 (shape1 dataset)
        end in
      match setup dataset initial_scope empty_state with
      | Exc e st => Failed e st
      | Ret root st =>
          match while_tasks env fuel root st with
          | Finished _ st =>
              match post_processing imp root st with
              | Ret node st => Finished node st
              | Exc e st => Failed e st
              end
          | Failed e st => Failed e st
          | OutOfFuel st => OutOfFuel st
          end
      end
  | _, _, _, _, _, _ => Failed AssertionError empty_state
  end.

(** *** Closed forms of what the loops enqueue *)

(** The tasks that the SPLIT_ROWS loop appends for a node whose child list
    had [base] entries. *)
Definition row_tasks (node : Ref) (base : nat) (scope : Scope)
    (data_slices : list (D * Scope * W)) : list Task :=
  imap (fun i tr => mkTask (fst (fst tr)) node (base + i) scope false false)
       data_slices.

(** The tasks that the SPLIT_COLUMNS loop appends. *)
Definition col_tasks (node : Ref) (base : nat)
    (data_slices : list (D * Scope * W)) : list Task :=
  imap (fun i tr => mkTask (fst (fst tr)) node (base + i) (snd (fst tr)) false false)
       data_slices.

(** The single-column tasks that the NAIVE_FACTORIZATION loop and the loop
    of REMOVE_UNINFORMATIVE_FEATURES append for the positions [cols]. *)
Definition column_tasks (env : Env) (node : Ref) (base : nat) (local_data : D)
    (scope : Scope) (cols : list nat) : list Task :=
  imap (fun i col => mkTask (data_slicer env local_data [col]) node (base + i)
                            [nth col scope 0] true true)
       cols.

(** What is left of [set(range(len(scope)))] after the removal of [cols],
    as a list: the scope-relative positions of the other columns. *)
Definition rest_positions (scope : Scope) (cols : list nat) : list nat :=
  filter (fun y => y ∉ cols) (seq 0 (length scope)).

(** The last task of the REMOVE_UNINFORMATIVE_FEATURES branch, over the
    columns that are left. *)
Definition rest_task (env : Env) (node : Ref) (local_data : D) (scope : Scope)
    (cols : list nat) : Task :=
  let rest_scope := rest_positions scope cols in
  mkTask (data_slicer env local_data rest_scope) node (length cols) rest_scope
         (length rest_scope =? 1) (length rest_scope =? 1).

(** The task that an iteration puts back when the splitter it called
    returned a single triple; [None] when the iteration does not re-enqueue. *)
Definition requeued (env : Env) (t : Task) (operation : Operation) : option Task :=
  match operation with
  | SPLIT_ROWS =>
      if length (split_rows env (t_local_data t) (ds_context env) (t_scope t)) =? 1
      then Some (mkTask (t_local_data t) (t_parent t) (t_children_pos t) (t_scope t)
                        true false)
      else None
  | SPLIT_COLUMNS =>
      if length (split_cols env (t_local_data t) (ds_context env) (t_scope t)) =? 1
      then Some (mkTask (t_local_data t) (t_parent t) (t_children_pos t) (t_scope t)
                        false true)
      else None
  | _ => None
  end.

(** The object that an iteration allocates at address [node] when it does
    not re-enqueue, as the object stands at the end of the iteration, and the
    tasks that the iteration appends. *)
Definition built (env : Env) (t : Task) (node : Ref) (operation : Operation)
    (op_params : option (list nat)) : option (Obj * list Task) :=
  let local_data := t_local_data t in
  let scope := t_scope t in
  match operation with
  | REMOVE_UNINFORMATIVE_FEATURES =>
      match op_params with
      | Some cols =>
          Some (Product scope (replicate (S (length cols)) None),
                column_tasks env node 0 local_data scope cols
                ++ [rest_task env node local_data scope cols])
      | None => None
      end
  | SPLIT_ROWS =>
      let data_slices := split_rows env local_data (ds_context env) scope in
      Some (Sum scope (replicate (length data_slices) None) (snd <$> data_slices),
            row_tasks node 0 scope data_slices)
  | SPLIT_COLUMNS =>
      let data_slices := split_cols env local_data (ds_context env) scope in
      Some (Product scope (replicate (length data_slices) None),
            col_tasks node 0 data_slices)
  | NAIVE_FACTORIZATION =>
      Some (Product scope (replicate (length scope) None),
            column_tasks env node 0 local_data scope (seq 0 (length scope)))
  | CREATE_LEAF =>
      Some (Leaf (create_leaf env local_data (ds_context env) scope), [])
  end.

(** [parent.children[pos] = node] on the heap, for a parent known to be the
    object [o] with the child list [cs]. *)
Definition fill_slot (h : Heap) (parent : Ref) (pos : nat) (node : Ref)
    (o : Obj) (cs : list (option Ref)) : Heap :=
  <[parent := obj_set_children o (<[pos := Some node]> cs)]> h.

(** *** Runs of the loop and what they keep true *)

(** The state in which the loop starts: the root wrapper with its one
    placeholder at address 0, and the seed task. *)
Definition initial_state (dataset : D) (initial_scope : Scope) : State :=
  mkState [Product [] [None]] [mkTask dataset 0 0 initial_scope false false].

(** The states that the loop passes through, started in [st0]. *)
Inductive reachable (env : Env) (root : Ref) (st0 : State) : State -> Prop :=
  | reachable_start : reachable env root st0 st0
  | reachable_iter (st st' : State) :
      reachable env root st0 st ->
      loop_body env root st = Ret tt st' ->
      reachable env root st0 st'.

(** A task that works on the whole dataset for the slot of the root wrapper:
    the seed task, or a copy that an iteration put back. *)
Definition seed_like (dataset : D) (initial_scope : Scope) (t : Task) : Prop :=
  t_local_data t = dataset /\ t_children_pos t = 0 /\ t_scope t = initial_scope.

(** Every [Sum] of the heap has as many weights as child slots; its weights
    are the proportions of one call of [split_rows], in order; and a pending
    task for its slot [i] holds the row subset of the triple [i] of that
    call. *)
Definition sum_aligned (env : Env) (st : State) : Prop :=
  forall r s cs ws,
    heap st !! r = Some (Sum s cs ws) ->
    length ws = length cs /\
    exists d,
      ws = (snd <$> split_rows env d (ds_context env) s) /\
      forall t, t ∈ tasks st -> t_parent t = r ->
        exists tr,
          split_rows env d (ds_context env) s !! t_children_pos t = Some tr /\
          t_local_data t = fst (fst tr) /\ t_scope t = s.

Record loop_invariant (env : Env) (dataset : D) (initial_scope : Scope)
    (st : State) : Prop := mk_loop_invariant {
  inv_root : exists c, heap st !! 0 = Some (Product [] [c]) /\
                       (c = None -> exists t, t ∈ tasks st /\ t_parent t = 0);
  inv_parents : forall t, t ∈ tasks st -> t_parent t < length (heap st);
  inv_seed : forall t, t ∈ tasks st -> t_parent t = 0 ->
                       seed_like dataset initial_scope t;
  inv_sums : sum_aligned env st
}.

(** The two flags of the seed task after [k] iterations, when both splitters
    keep returning a single triple and the policy never finds a constant
    column nor a small slice. *)
Definition flags_after (k : nat) : bool * bool :=
  match k with
  | 0 => (false, false)
  | S _ => if Nat.odd k then (true, false) else (false, true)
  end.

(** The initial state up to the two flags of the seed task: the root wrapper
    with its placeholder, and one task for it over the whole dataset. *)
Definition seed_state (dataset : D) (initial_scope : Scope) (flags : bool * bool)
    : State :=
  mkState [Product [] [None]]
          [mkTask dataset 0 0 initial_scope (fst flags) (snd flags)].

End Builder.

Arguments Ret {D L W A} a st.
Arguments Exc {D L W A} e st.
Arguments Finished {D L W A} a st.
Arguments Failed {D L W A} e st.
Arguments OutOfFuel {D L W A} st.
Arguments Obj L W : clear implicits.
Abbreviation Heap L W := (list (Obj L W)).
Arguments Task D : clear implicits.
Arguments State D L W : clear implicits.
Arguments Env D Ctx L W : clear implicits.
Arguments Imports L W : clear implicits.
Arguments Splitter D Ctx W : clear implicits.

(** ** A concrete array model, for running the builder

    A two-dimensional array of integers, row by row, with its column count
    kept apart (an array with no rows still has columns).  The variance test
    is exact: over [n > 0] rows, [n * sum x^2 - (sum x)^2] is [n^2] times the
    variance; over no rows numpy answers [nan], which is not zero. *)
Record ndarray : Type := mk_ndarray {
  nd_rows : list (list Z);
  nd_ncols : nat
}.

Definition nd_column (a : ndarray) (j : nat) : list Z :=
  (fun row => nth j row 0%Z) <$> nd_rows a.

Definition Zsum (xs : list Z) : Z := foldr Z.add 0%Z xs.

Definition nd_var_is_zero (a : ndarray) (j : nat) : bool :=
  let col := nd_column a j in
  let n := Z.of_nat (length col) in
  if (n =? 0)%Z then false
  else (n * Zsum ((fun x => x * x) <$> col) - Zsum col * Zsum col =? 0)%Z.

Definition nd_index_cols (a : ndarray) (cols : list nat) : ndarray :=
  mk_ndarray ((fun row => (fun c => nth c row 0%Z) <$> cols) <$> nd_rows a)
             (length cols).

#[export] Instance ndarray_NdArray : NdArray ndarray := {|
  shape0 a := length (nd_rows a);
  shape1 := nd_ncols;
  var_is_zero := nd_var_is_zero;
  index_cols := nd_index_cols;
  index_col_reshaped a c := nd_index_cols a [c]
|}.

(** *** Collaborators for the examples *)

(** A leaf that remembers what it was fitted on. *)
Record ExLeaf : Type := mkExLeaf {
  leaf_data : ndarray;
  leaf_scope : Scope
}.

Definition ex_create_leaf (data : ndarray) (_ : unit) (scope : Scope) : ExLeaf :=
  mkExLeaf data scope.

(** A splitter that finds no structure: one triple, the slice itself. *)
Definition one_triple : Splitter ndarray unit Q :=
  fun data _ scope => [(data, scope, 1%Q)].

(** A row splitter: the first three rows against the rest, with the
    proportions 0.3 and 0.7. *)
Definition split_3_7 : Splitter ndarray unit Q :=
  fun data _ scope =>
    [ (mk_ndarray (take 3 (nd_rows data)) (nd_ncols data), scope, (3 # 10)%Q);
      (mk_ndarray (drop 3 (nd_rows data)) (nd_ncols data), scope, (7 # 10)%Q) ].

(** Imported functions for the examples: identifiers are not part of the
    model, pruning keeps the tree, and a tree is valid when no child slot of
    the heap is still a placeholder. *)
Definition no_placeholder (o : Obj ExLeaf Q) : bool :=
  match obj_children o with
  | Ok cs => forallb (fun c : option Ref => bool_decide (is_Some c)) cs
  | Raise _ => true
  end.

Definition ex_imports : Imports ExLeaf Q :=
  {| assign_ids := fun h _ => h;
     Prune := fun h node => (h, node);
     is_valid := fun h _ => (forallb no_placeholder h, EmptyString) |}.

(** Imported functions whose validity check always fails. *)
Definition ex_imports_invalid : Imports ExLeaf Q :=
  {| assign_ids := fun h _ => h;
     Prune := fun h node => (h, node);
     is_valid := fun h _ => (false, "placeholder"%string) |}.

(** Ten rows, two columns, no constant column. *)
Definition ex_dataset : ndarray :=
  mk_ndarray ((fun i => [Z.of_nat i; Z.of_nat (i * i)]) <$> seq 0 10) 2.

(** Four rows, three columns; column 0 is constant. *)
Definition ex_dataset3 : ndarray :=
  mk_ndarray [[7; 1; 4]; [7; 2; 3]; [7; 3; 9]; [7; 4; 1]]%Z 3.

(** Three rows, two columns, both constant. *)
Definition ex_constant : ndarray :=
  mk_ndarray [[7; 3]; [7; 3]; [7; 3]]%Z 2.

(** The two row subsets that [split_3_7] makes of [ex_dataset]. *)
Definition ex_lo : ndarray := mk_ndarray (take 3 (nd_rows ex_dataset)) 2.
Definition ex_hi : ndarray := mk_ndarray (drop 3 (nd_rows ex_dataset)) 2.

(** The collaborators of the example calls: splitters that never find
    structure, with the floor at 3 rows (or 2 rows), and a row splitter that
    does, with the floor at 7 rows. *)
Definition ex_env_single (floor : Z) : Env ndarray unit ExLeaf Q :=
  mkEnv tt one_triple one_triple ex_create_leaf (get_next_operation floor)
        default_slicer.

Definition ex_env_split : Env ndarray unit ExLeaf Q :=
  mkEnv tt split_3_7 one_triple ex_create_leaf (get_next_operation 7)
        default_slicer.

(** The state of the call on [ex_dataset] with [ex_env_split] after its
    first iteration: the Sum is in place, its two children are pending. *)
Definition ex_state_split : State ndarray ExLeaf Q :=
  mkState [Product [] [Some 1]; Sum [0; 1] [None; None] [(3 # 10)%Q; (7 # 10)%Q]]
          [mkTask ex_lo 1 0 [0; 1] false false;
           mkTask ex_hi 1 1 [0; 1] false false].

(** The next state: the first child of the Sum is built, a Product over two
    single-column tasks on [ex_lo]. *)
Definition ex_state_child : State ndarray ExLeaf Q :=
  mkState [Product [] [Some 1];
           Sum [0; 1] [Some 2; None] [(3 # 10)%Q; (7 # 10)%Q];
           Product [0; 1] [None; None]]
          [mkTask ex_hi 1 1 [0; 1] false false;
           mkTask (default_slicer ex_lo [0]) 2 0 [0] true true;
           mkTask (default_slicer ex_lo [1]) 2 1 [1] true true].

(** The state in which the call on [ex_dataset] with [ex_env_split] ends:
    under the root wrapper a Sum with the weights 0.3 and 0.7, whose children
    are the naive factorizations of [ex_lo] and [ex_hi], in that order. *)
Definition ex_state_final : State ndarray ExLeaf Q :=
  mkState [Product [] [Some 1];
           Sum [0; 1] [Some 2; Some 3] [(3 # 10)%Q; (7 # 10)%Q];
           Product [0; 1] [Some 4; Some 5];
           Product [0; 1] [Some 6; Some 7];
           Leaf (mkExLeaf (default_slicer ex_lo [0]) [0]);
           Leaf (mkExLeaf (default_slicer ex_lo [1]) [1]);
           Leaf (mkExLeaf (default_slicer ex_hi [0]) [0]);
           Leaf (mkExLeaf (default_slicer ex_hi [1]) [1])]
          [].

(** ** Proof automation *)

(** A member of an indexed map is the image of some entry. *)
Ltac imap_member H :=
  let i := fresh "i" in
  let y := fresh "y" in
  apply elem_of_lookup_imap in H as (i & y & -> & _).

(** Case analysis on the chain of tests of the policy. *)
Ltac policy_cases Hd :=
  repeat (match type of Hd with
          | context [if ?b then _ else _] => destruct b
          end).

(** ** The shape of the heap during a call *)

Section TreeShape.
Context {D : Type} {L W : Type}.

(** The slot that a task is to fill: the parent and the index into its
    child list. *)
Definition task_slot (t : Task D) : nat * nat :=
  (t_parent t, t_children_pos t).

(** What the child slot [i] of the object at address [r] holds: nothing when
    there is no such object, no child list or no such index; otherwise the
    placeholder [None] or the address of a child. *)
Definition slot (h : Heap L W) (r i : nat) : option (option nat) :=
  match h !! r with
  | Some o =>
      match obj_children o with
      | Ok cs => cs !! i
      | Raise _ => None
      end
  | None => None
  end.

(** The pending tasks and the placeholders of the heap match one to one, and
    the child addresses make the heap a forest: a child is allocated after
    its parent, and no object is the child of two slots. *)
Record tree_invariant (st : State D L W) : Prop := mk_tree_invariant {
  tree_pending : forall t, t ∈ tasks st ->
      slot (heap st) (t_parent t) (t_children_pos t) = Some None;
  tree_distinct : NoDup (task_slot <$> tasks st);
  tree_awaited : forall r i, slot (heap st) r i = Some None ->
      exists t, t ∈ tasks st /\ task_slot t = (r, i);
  tree_forward : forall r i c, slot (heap st) r i = Some (Some c) ->
      r < c < length (heap st);
  tree_unshared : forall r i r' i' c,
      slot (heap st) r i = Some (Some c) ->
      slot (heap st) r' i' = Some (Some c) ->
      (r, i) = (r', i')
}.
End TreeShape.

(** ** Runs that end in leaves *)

Section LeafRuns.
Context {D : Type} `{NdArray D} {Ctx L W : Type}.

(** Single-column tasks with both flags set, for consecutive slots of one
    node: [items] gives the slice and the one identifier of each. *)
Definition leaf_tasks (node base : nat) (items : list (D * nat)) : list (Task D) :=
  imap (fun i x => mkTask (fst x) node (base + i) [snd x] true true) items.

(** The leaves that [create_leaf] makes of them. *)
Definition leaves (env : Env D Ctx L W) (items : list (D * nat)) : list (Obj L W) :=
  (fun x => Leaf (create_leaf env (fst x) (ds_context env) [snd x])) <$> items.

(** The slice and identifier of a column of the scope, as the
    NAIVE_FACTORIZATION and REMOVE_UNINFORMATIVE_FEATURES branches carve it
    out. *)
Definition column_item (env : Env D Ctx L W) (local_data : D) (scope : Scope)
    (col : nat) : D * nat :=
  (data_slicer env local_data [col], nth col scope 0).

(** The heap of a call that ended after one node directly under the root
    wrapper: the wrapper, the Product over the scope, its leaves. *)
Definition flat_heap (env : Env D Ctx L W) (scope : Scope)
    (items : list (D * nat)) : Heap L W :=
  [Product [] [Some 1]; Product scope (Some <$> seq 2 (length items))]
  ++ leaves env items.

(** The last lines of [learn_structure] on a heap whose root wrapper holds
    [node]. *)
Definition post_processed (imp : Imports L W) (h : Heap L W) (node : option nat)
    : outcome (option nat) :=
  let pruned := Prune imp (assign_ids imp h node) node in
  if fst (is_valid imp (fst pruned) (snd pruned))
  then @Finished D L W _ (snd pruned) (mkState (fst pruned) [])
  else Failed AssertionError (mkState (fst pruned) []).

End LeafRuns.

(** ** More examples *)

(** A column splitter that finds structure: the first column against the
    second. *)
Definition split_first_column : Splitter ndarray unit Q :=
  fun data _ scope =>
    [ (nd_index_cols data [0], take 1 scope, (1 # 2)%Q);
      (nd_index_cols data [1], drop 1 scope, (1 # 2)%Q) ].

(** Three rows, two columns; column 0 is constant, column 1 is not. *)
Definition ex_one_informative : ndarray :=
  mk_ndarray [[7; 1]; [7; 2]; [7; 3]]%Z 2.

(** Two rows, three columns; columns 0 and 1 are constant. *)
Definition ex_wide : ndarray :=
  mk_ndarray [[7; 3; 1]; [7; 3; 2]]%Z 3.

(** Collaborators with a column splitter that finds structure, the floor at
    3 rows. *)
Definition ex_env_cols : Env ndarray unit ExLeaf Q :=
  mkEnv tt one_triple split_first_column ex_create_leaf (get_next_operation 3)
        default_slicer.


(** * Properties of the operation policy *)

Section PolicyFacts.
Context {D : Type} `{NdArray D}.

Lemma np_sum_fmap {A : Type} (f : A -> bool) (l : list A) :
  np_sum (f <$> l) = length (filter (fun x => f x = true) l).
Proof.
  unfold np_sum. induction l as [|x l IH]; [reflexivity|].
  rewrite fmap_cons, !filter_cons.
  destruct (decide (f x = true)) as [Hx|Hx]; simpl; rewrite IH; reflexivity.
Qed.

Lemma filter_all {A : Type} (P : A -> Prop) `{!forall x, Decision (P x)} (l : list A) :
  (forall x, x ∈ l -> P x) -> filter P l = l.
Proof.
  induction l as [|x l IH]; intros Hall; [reflexivity|].
  rewrite filter_cons_True by (apply Hall; left).
  rewrite IH; [reflexivity|]. intros y Hy. apply Hall. right. exact Hy.
Qed.

Lemma filter_none {A : Type} (P : A -> Prop) `{!forall x, Decision (P x)} (l : list A) :
  (forall x, x ∈ l -> ~ P x) -> filter P l = [].
Proof.
  induction l as [|x l IH]; intros Hall; [reflexivity|].
  rewrite filter_cons_False by (apply Hall; left).
  apply IH. intros y Hy. apply Hall. right. exact Hy.
Qed.

(** Selecting by a mask that was computed position by position is a filter. *)
Lemma mask_select_fmap {A : Type} (f : A -> bool) (l : list A) :
  mask_select l (f <$> l) = Ok (filter (fun x => f x = true) l).
Proof.
  unfold mask_select. rewrite length_fmap, Nat.eqb_refl. f_equal.
  induction l as [|x l IH]; [reflexivity|].
  rewrite fmap_cons. cbn [zip zip_with]. rewrite !filter_cons. cbn [snd].
  destruct (decide (f x = true)); rewrite ?fmap_cons; cbn [fst]; rewrite IH; reflexivity.
Qed.

Lemma zero_variance_positions_spec (data : D) (k j : nat) :
  j ∈ zero_variance_positions data k <-> j < k /\ var_is_zero data j = true.
Proof.
  unfold zero_variance_positions. rewrite list_elem_of_filter, elem_of_seq.
  intuition lia.
Qed.

Lemma zero_variance_positions_sorted (data : D) (k : nat) :
  StronglySorted lt (zero_variance_positions data k).
Proof.
  unfold zero_variance_positions. generalize 0.
  induction k as [|k IH]; intros s; [constructor|].
  cbn [seq]. rewrite filter_cons.
  destruct (decide (var_is_zero data s = true)); [|apply IH].
  constructor; [apply IH|].
  apply Forall_forall. intros x Hx.
  apply list_elem_of_filter in Hx as [_ Hx]. apply elem_of_seq in Hx. lia.
Qed.

(** When the scope has several columns the policy reaches the variance test. *)
Lemma next_operation_several_columns (m : Z) (data : D) (scope : Scope)
    (nc ni f cf cu : bool) :
  length scope <> 1 -> length scope <= shape1 data ->
  next_operation m data scope nc ni f cf cu =
    let zs := zero_variance_positions data (length scope) in
    if 0 <? length zs then
      if length zs =? shape1 data then Ok (NAIVE_FACTORIZATION, None)
      else Ok (REMOVE_UNINFORMATIVE_FEATURES, Some zs)
    else if (Z.of_nat (shape0 data) <=? m)%Z || (nc && ni)
    then Ok (NAIVE_FACTORIZATION, None)
    else if ni then Ok (SPLIT_ROWS, None)
    else if nc then Ok (SPLIT_COLUMNS, None)
    else if f then (if cf then Ok (SPLIT_ROWS, None) else Ok (SPLIT_COLUMNS, None))
    else Ok (SPLIT_COLUMNS, None).
Proof.
  intros Hlen Hcols. unfold next_operation.
  destruct (length scope =? 1) eqn:E; [apply Nat.eqb_eq in E; contradiction|].
  rewrite Nat.min_l by exact Hcols.
  rewrite np_sum_fmap, mask_select_fmap. reflexivity.
Qed.
(** C7: for a scope of length 1 and a slice whose row count does not exceed
    the floor, the policy returns CREATE_LEAF with no auxiliary parameter,
    whatever the five flags are. *)
Theorem policy_single_column_at_floor (min_instances_slice : Z) (data : D)
    (scope : Scope)
    (no_clusters no_independencies is_first cluster_first cluster_univariate : bool) :
  length scope = 1 ->
  (Z.of_nat (shape0 data) <= min_instances_slice)%Z ->
  next_operation min_instances_slice data scope no_clusters no_independencies
                 is_first cluster_first cluster_univariate
  = Ok (CREATE_LEAF, None).
Proof.
  intros Hscope Hrows. unfold next_operation. rewrite Hscope. cbn [Nat.eqb].
  apply Z.leb_le in Hrows. rewrite Hrows. reflexivity.
Qed.

(** C5: for a slice with as many columns as the scope, more than one, all of
    zero variance, the policy returns NAIVE_FACTORIZATION with no auxiliary
    parameter. *)
Theorem policy_all_zero_variance (min_instances_slice : Z) (data : D)
    (scope : Scope)
    (no_clusters no_independencies is_first cluster_first cluster_univariate : bool) :
  1 < length scope ->
  shape1 data = length scope ->
  (forall j, j < shape1 data -> var_is_zero data j = true) ->
  next_operation min_instances_slice data scope no_clusters no_independencies
                 is_first cluster_first cluster_univariate
  = Ok (NAIVE_FACTORIZATION, None).
Proof.
  intros Hscope Hcols Hzero.
  rewrite next_operation_several_columns by lia. cbv zeta.
  unfold zero_variance_positions. rewrite filter_all.
  - rewrite length_seq.
    destruct (0 <? length scope) eqn:E; [|apply Nat.ltb_ge in E; lia].
    rewrite Hcols, Nat.eqb_refl. reflexivity.
  - intros j Hj. apply elem_of_seq in Hj. apply Hzero. lia.
Qed.

(** C6: for a slice with at least as many columns as the scope, more than
    one, of which some but not all of the first [len(scope)] have zero
    variance, the policy returns REMOVE_UNINFORMATIVE_FEATURES and a list
    that holds exactly the scope-relative positions of the zero-variance
    columns, in ascending order. *)
Theorem policy_some_zero_variance (min_instances_slice : Z) (data : D)
    (scope : Scope)
    (no_clusters no_independencies is_first cluster_first cluster_univariate : bool) :
  1 < length scope ->
  length scope <= shape1 data ->
  (exists j, j < length scope /\ var_is_zero data j = true) ->
  (exists j, j < length scope /\ var_is_zero data j = false) ->
  exists positions,
    next_operation min_instances_slice data scope no_clusters no_independencies
                   is_first cluster_first cluster_univariate
    = Ok (REMOVE_UNINFORMATIVE_FEATURES, Some positions)
    /\ (forall j, j ∈ positions <-> j < length scope /\ var_is_zero data j = true)
    /\ StronglySorted lt positions.
Proof.
  intros Hscope Hcols [j1 [Hj1 Hz1]] [j2 [Hj2 Hz2]].
  exists (zero_variance_positions data (length scope)).
  split; [|split].
  - rewrite next_operation_several_columns by lia. cbv zeta.
    assert (Hin : j1 ∈ zero_variance_positions data (length scope))
      by (apply zero_variance_positions_spec; auto).
    assert (Hpos : 0 < length (zero_variance_positions data (length scope))).
    { destruct (zero_variance_positions data (length scope)); [inversion Hin|simpl; lia]. }
    assert (Hlt : length (zero_variance_positions data (length scope)) < length scope).
    { unfold zero_variance_positions.
      pose proof (length_filter_lt (fun j => var_is_zero data j = true)
                    (seq 0 (length scope)) j2) as Hf.
      rewrite length_seq in Hf. apply Hf; [apply elem_of_seq; lia|congruence]. }
    apply Nat.ltb_lt in Hpos. rewrite Hpos.
    destruct (_ =? shape1 data) eqn:E; [apply Nat.eqb_eq in E; lia|reflexivity].
  - intros j. apply zero_variance_positions_spec.
  - apply zero_variance_positions_sorted.
Qed.
End PolicyFacts.

(** * Properties of the builder *)

Section BuilderFacts.
Context {D : Type} `{NdArray D} {Ctx L W : Type}.

Local Abbreviation state := (State D L W).
Local Abbreviation obj := (Obj L W).
Local Abbreviation env_t := (Env D Ctx L W).

(** ** Heap arithmetic *)

Lemma insert_snoc {A : Type} (h : list A) (x y : A) :
  <[length h := x]> (h ++ [y]) = h ++ [x].
Proof.
  replace (length h) with (length h + 0) by lia.
  rewrite insert_app_r. reflexivity.
Qed.

Lemma lookup_snoc {A : Type} (h : list A) (x : A) :
  (h ++ [x]) !! length h = Some x.
Proof. apply list_lookup_middle. reflexivity. Qed.

Lemma lookup_snoc_at {A : Type} (h : list A) (n : nat) (x : A) :
  length h = n -> (h ++ [x]) !! n = Some x.
Proof. intros <-. apply lookup_snoc. Qed.

Lemma insert_snoc_at {A : Type} (h : list A) (n : nat) (x y : A) :
  length h = n -> <[n := x]> (h ++ [y]) = h ++ [x].
Proof. intros <-. apply insert_snoc. Qed.

Lemma insert_snoc_lt {A : Type} (h : list A) (i : nat) (x y : A) :
  i < length h -> <[i := x]> (h ++ [y]) = <[i := x]> h ++ [y].
Proof. intros Hi. apply insert_app_l. exact Hi. Qed.

(** ** The primitive effects on a known object *)

Lemma bind_Ret {A B : Type} (m : @M D L W A) (k : A -> @M D L W B)
    (st st' : state) (a : A) :
  m st = Ret a st' -> bind m k st = k a st'.
Proof. intros Hm. unfold bind. rewrite Hm. reflexivity. Qed.

Lemma bind_inv {A B : Type} (m : @M D L W A) (k : A -> @M D L W B)
    (st st'' : state) (b : B) :
  bind m k st = Ret b st'' -> exists a st', m st = Ret a st' /\ k a st' = Ret b st''.
Proof.
  unfold bind. destruct (m st) as [a st'|e st']; [|discriminate].
  intros Hk. exists a, st'. auto.
Qed.

Lemma new_object_eq (o : obj) (h : Heap L W) (q : list (Task D)) :
  new_object o (mkState h q) = Ret (length h) (mkState (h ++ [o]) q).
Proof. reflexivity. Qed.

Lemma tasks_append_eq (t : Task D) (h : Heap L W) (q : list (Task D)) :
  tasks_append t (mkState h q) = Ret tt (mkState h (q ++ [t])).
Proof. reflexivity. Qed.

Lemma scope_extend_eq (node : Ref) (s : Scope) (h : Heap L W)
    (q : list (Task D)) (o o' : obj) :
  h !! node = Some o -> obj_scope_extend o s = Ok o' ->
  scope_extend node s (mkState h q) = Ret tt (mkState (<[node := o']> h) q).
Proof.
  intros Ho Hext. unfold scope_extend, bind, deref, lift, ret, store.
  simpl. rewrite Ho, Hext. reflexivity.
Qed.

Lemma children_append_eq (node : Ref) (v : option Ref) (h : Heap L W)
    (q : list (Task D)) (o : obj) (cs : list (option Ref)) :
  h !! node = Some o -> obj_children o = Ok cs ->
  children_append node v (mkState h q)
  = Ret tt (mkState (<[node := obj_set_children o (cs ++ [v])]> h) q).
Proof.
  intros Ho Hcs. unfold children_append, bind, deref, lift, ret, store.
  simpl. rewrite Ho, Hcs. reflexivity.
Qed.

Lemma children_len_eq (node : Ref) (h : Heap L W) (q : list (Task D))
    (o : obj) (cs : list (option Ref)) :
  h !! node = Some o -> obj_children o = Ok cs ->
  children_len node (mkState h q) = Ret (length cs) (mkState h q).
Proof.
  intros Ho Hcs. unfold children_len, bind, deref, lift, ret.
  simpl. rewrite Ho, Hcs. reflexivity.
Qed.

Lemma weights_append_eq (node : Ref) (w : W) (h : Heap L W) (q : list (Task D))
    (s : Scope) (cs : list (option Ref)) (ws : list W) :
  h !! node = Some (Sum s cs ws) ->
  weights_append node w (mkState h q)
  = Ret tt (mkState (<[node := Sum s cs (ws ++ [w])]> h) q).
Proof.
  intros Ho. unfold weights_append, bind, deref, lift, ret, store.
  simpl. rewrite Ho. reflexivity.
Qed.

Lemma children_setitem_eq (parent : Ref) (pos : nat) (v : option Ref)
    (h : Heap L W) (q : list (Task D)) (o : obj) (cs : list (option Ref)) :
  h !! parent = Some o -> obj_children o = Ok cs -> pos < length cs ->
  children_setitem parent pos v (mkState h q)
  = Ret tt (mkState (<[parent := obj_set_children o (<[pos := v]> cs)]> h) q).
Proof.
  intros Ho Hcs Hpos. unfold children_setitem, bind, deref, lift, ret, store.
  simpl. rewrite Ho, Hcs. destruct (decide (pos < length cs)); [reflexivity|lia].
Qed.

Lemma children_setitem_inv (parent : Ref) (pos : nat) (v : option Ref)
    (h : Heap L W) (q : list (Task D)) (st' : state) :
  children_setitem parent pos v (mkState h q) = Ret tt st' ->
  exists o cs, h !! parent = Some o /\ obj_children o = Ok cs /\ pos < length cs.
Proof.
  unfold children_setitem, bind, deref, lift, ret, store, raise. simpl.
  destruct (h !! parent) as [o|]; [|discriminate].
  destruct (obj_children o) as [cs|e] eqn:Hcs; [|discriminate].
  destruct (decide (pos < length cs)); [|discriminate].
  intros _. exists o, cs. auto.
Qed.

(** The prefix returns exactly when the parent is an allocated node with a
    slot at [pos]; the new node then sits at the end of the heap, with the
    scope of the task and no children yet. *)
Lemma splice_inv (o0 o1 : obj) (scope : Scope) (parent : Ref) (pos : nat)
    (h : Heap L W) (q : list (Task D)) (node : Ref) (st' : state) :
  obj_children o0 = Ok [] ->
  obj_scope_extend o0 scope = Ok o1 ->
  splice (new_object o0) scope parent pos (mkState h q) = Ret node st' ->
  exists o cs,
    h !! parent = Some o /\ obj_children o = Ok cs /\ pos < length cs /\
    node = length h /\
    st' = mkState (<[parent := obj_set_children o (<[pos := Some (length h)]> cs)]> h
                   ++ [o1]) q.
Proof.
  intros Hcs0 Hext. unfold splice.
  rewrite (bind_Ret _ _ _ _ _ (new_object_eq _ _ _)).
  rewrite (bind_Ret _ _ _ _ _ (scope_extend_eq _ _ _ _ _ _ (lookup_snoc _ _) Hext)).
  rewrite insert_snoc. intros Hset.
  apply bind_inv in Hset as ([] & st1 & Hset & Hret).
  inversion Hret; subst; clear Hret.
  destruct (children_setitem_inv _ _ _ _ _ _ Hset) as (o & cs & Ho & Hcs & Hpos).
  assert (Hcs1 : obj_children o1 = Ok []).
  { destruct o0; simpl in Hext, Hcs0; try discriminate;
      inversion Hext; inversion Hcs0; subst; reflexivity. }
  assert (Hlt : parent < length h).
  { pose proof (lookup_lt_Some _ _ _ Ho) as Hb.
    rewrite length_app in Hb. simpl in Hb.
    destruct (decide (parent = length h)) as [->|]; [|lia].
    rewrite lookup_snoc in Ho. inversion Ho; subst.
    rewrite Hcs1 in Hcs. inversion Hcs; subst. simpl in Hpos. lia. }
  rewrite lookup_app_l in Ho by exact Hlt.
  rewrite (children_setitem_eq _ _ _ _ _ o cs) in Hset.
  - inversion Hset; subst. exists o, cs.
    rewrite insert_snoc_lt by exact Hlt. auto 10.
  - rewrite lookup_app_l by exact Hlt. exact Ho.
  - exact Hcs.
  - exact Hpos.
Qed.

Lemma splice_eq (o0 o1 o : obj) (cs : list (option Ref)) (scope : Scope)
    (parent : Ref) (pos : nat) (h : Heap L W) (q : list (Task D)) :
  obj_scope_extend o0 scope = Ok o1 ->
  h !! parent = Some o -> obj_children o = Ok cs -> pos < length cs ->
  splice (new_object o0) scope parent pos (mkState h q)
  = Ret (length h)
        (mkState (<[parent := obj_set_children o (<[pos := Some (length h)]> cs)]> h
                  ++ [o1]) q).
Proof.
  intros Hext Ho Hcs Hpos. unfold splice.
  pose proof (lookup_lt_Some _ _ _ Ho) as Hlt.
  rewrite (bind_Ret _ _ _ _ _ (new_object_eq _ _ _)).
  rewrite (bind_Ret _ _ _ _ _ (scope_extend_eq _ _ _ _ _ _ (lookup_snoc _ _) Hext)).
  rewrite insert_snoc.
  erewrite bind_Ret.
  2:{ apply (children_setitem_eq _ _ _ _ _ o cs); [|exact Hcs|exact Hpos].
      rewrite lookup_app_l by exact Hlt. exact Ho. }
  rewrite insert_snoc_lt by exact Hlt. reflexivity.
Qed.
(** ** The four [for] loops in closed form *)

Lemma for_row_slices_eq (node : Ref) (scope : Scope)
    (data_slices : list (D * Scope * W)) :
  forall (h : Heap L W) (q : list (Task D)) s cs ws,
    h !! node = Some (Sum s cs ws) ->
    for_row_slices node scope data_slices (mkState h q)
    = Ret tt (mkState
                (<[node := Sum s (cs ++ replicate (length data_slices) None)
                                 (ws ++ (snd <$> data_slices))]> h)
                (q ++ row_tasks node (length cs) scope data_slices)).
Proof.
  unfold row_tasks.
  induction data_slices as [|[[d sc] w] rest IH]; intros h q s cs ws Ho.
  - simpl. rewrite !app_nil_r, list_insert_id by exact Ho. reflexivity.
  - pose proof (lookup_lt_Some _ _ _ Ho) as Hlt.
    cbn [for_row_slices].
    rewrite (bind_Ret _ _ _ _ _ (children_append_eq _ _ _ _ (Sum s cs ws) cs Ho eq_refl)).
    cbn [obj_set_children].
    rewrite (bind_Ret _ _ _ _ _
               (weights_append_eq _ _ _ _ _ _ _ (list_lookup_insert_eq _ _ _ Hlt))).
    rewrite list_insert_insert_eq.
    rewrite (bind_Ret _ _ _ _ _
               (children_len_eq _ _ _ (Sum s (cs ++ [None]) (ws ++ [w])) (cs ++ [None])
                  (list_lookup_insert_eq _ _ _ Hlt) eq_refl)).
    rewrite (bind_Ret _ _ _ _ _ (tasks_append_eq _ _ _)).
    rewrite (IH _ _ _ _ _ (list_lookup_insert_eq _ _ _ Hlt)).
    rewrite list_insert_insert_eq, imap_cons, <- !app_assoc.
    rewrite length_app. cbn [length fmap list_fmap replicate app fst snd].
    replace (length cs + 1 - 1) with (length cs + 0) by lia.
    do 4 f_equal. apply imap_ext. intros i x _. unfold compose. f_equal. lia.
Qed.

Lemma for_col_slices_eq (node : Ref)
    (data_slices : list (D * Scope * W)) :
  forall (h : Heap L W) (q : list (Task D)) s cs,
    h !! node = Some (Product s cs) ->
    for_col_slices node data_slices (mkState h q)
    = Ret tt (mkState
                (<[node := Product s (cs ++ replicate (length data_slices) None)]> h)
                (q ++ col_tasks node (length cs) data_slices)).
Proof.
  unfold col_tasks.
  induction data_slices as [|[[d sc] w] rest IH]; intros h q s cs Ho.
  - simpl. rewrite !app_nil_r, list_insert_id by exact Ho. reflexivity.
  - pose proof (lookup_lt_Some _ _ _ Ho) as Hlt.
    cbn [for_col_slices].
    rewrite (bind_Ret _ _ _ _ _ (children_append_eq _ _ _ _ (Product s cs) cs Ho eq_refl)).
    cbn [obj_set_children].
    rewrite (bind_Ret _ _ _ _ _
               (children_len_eq _ _ _ (Product s (cs ++ [None])) (cs ++ [None])
                  (list_lookup_insert_eq _ _ _ Hlt) eq_refl)).
    rewrite (bind_Ret _ _ _ _ _ (tasks_append_eq _ _ _)).
    rewrite (IH _ _ _ _ (list_lookup_insert_eq _ _ _ Hlt)).
    rewrite list_insert_insert_eq, imap_cons, <- !app_assoc.
    rewrite length_app. cbn [length replicate app fst snd].
    replace (length cs + 1 - 1) with (length cs + 0) by lia.
    do 4 f_equal. apply imap_ext. intros i x _. unfold compose. f_equal. lia.
Qed.

Lemma list_getitem_lt {A : Type} (xs : list A) (i : nat) (d : A) :
  i < length xs -> list_getitem xs i = Ok (nth i xs d).
Proof.
  intros Hi. unfold list_getitem.
  destruct (lookup_lt_is_Some_2 xs i Hi) as [x Hx].
  rewrite Hx. erewrite nth_lookup_Some by exact Hx. reflexivity.
Qed.

Lemma for_columns_eq (env : env_t) (node : Ref) (local_data : D)
    (scope : Scope) (cols : list nat) :
  forall (h : Heap L W) (q : list (Task D)) s cs,
    h !! node = Some (Product s cs) ->
    Forall (fun col => col < length scope) cols ->
    for_columns env node local_data scope cols (mkState h q)
    = Ret tt (mkState
                (<[node := Product s (cs ++ replicate (length cols) None)]> h)
                (q ++ column_tasks env node (length cs) local_data scope cols)).
Proof.
  unfold column_tasks.
  induction cols as [|col rest IH]; intros h q s cs Ho Hcols.
  - simpl. rewrite !app_nil_r, list_insert_id by exact Ho. reflexivity.
  - pose proof (lookup_lt_Some _ _ _ Ho) as Hlt.
    apply Forall_cons in Hcols as [Hcol Hrest].
    cbn [for_columns].
    rewrite (bind_Ret _ _ _ _ _ (children_append_eq _ _ _ _ (Product s cs) cs Ho eq_refl)).
    cbn [obj_set_children].
    rewrite (bind_Ret _ _ _ _ _
               (children_len_eq _ _ _ (Product s (cs ++ [None])) (cs ++ [None])
                  (list_lookup_insert_eq _ _ _ Hlt) eq_refl)).
    rewrite (list_getitem_lt _ _ 0 Hcol). cbn [lift].
    rewrite (bind_Ret _ _ _ _ _ (eq_refl : ret _ _ = Ret _ _)).
    rewrite (bind_Ret _ _ _ _ _ (tasks_append_eq _ _ _)).
    rewrite (IH _ _ _ _ (list_lookup_insert_eq _ _ _ Hlt) Hrest).
    rewrite list_insert_insert_eq, imap_cons, <- !app_assoc.
    rewrite length_app. cbn [length replicate app].
    replace (length cs + 1 - 1) with (length cs + 0) by lia.
    do 4 f_equal. apply imap_ext. intros i x _. unfold compose. f_equal. lia.
Qed.
Lemma bind_ret_l {A B : Type} (a : A) (k : A -> @M D L W B) (st : state) :
  bind (ret a) k st = k a st.
Proof. reflexivity. Qed.

Lemma bind_raise_l {A B : Type} (e : Exn) (k : A -> @M D L W B) (st : state) :
  bind (raise e) k st = Exc e st.
Proof. reflexivity. Qed.

Lemma set_remove_in (x : nat) (s : list nat) :
  x ∈ s -> set_remove x s = Ok (filter (fun y => y ≠ x) s).
Proof. intros Hx. unfold set_remove. rewrite decide_True by exact Hx. reflexivity. Qed.

(** The loop of REMOVE_UNINFORMATIVE_FEATURES returns only for positions that
    are distinct, still in the set and inside the scope. *)
Lemma for_uninformative_inv (env : env_t) (node : Ref) (local_data : D)
    (scope : Scope) (cols : list nat) :
  forall (h : Heap L W) (q : list (Task D)) s cs rs rs' st',
    h !! node = Some (Product s cs) ->
    for_uninformative env node local_data scope cols rs (mkState h q) = Ret rs' st' ->
    NoDup cols /\ forall c, c ∈ cols -> c ∈ rs /\ c < length scope.
Proof.
  induction cols as [|col rest IH]; intros h q s cs rs rs' st' Ho Hrun.
  - split; [constructor|]. intros c Hc. inversion Hc.
  - pose proof (lookup_lt_Some _ _ _ Ho) as Hlt.
    cbn [for_uninformative] in Hrun.
    unfold set_remove in Hrun.
    destruct (decide (col ∈ rs)) as [Hin|Hout];
      [|cbn [lift] in Hrun; rewrite bind_raise_l in Hrun; discriminate].
    cbn [lift] in Hrun. rewrite bind_ret_l in Hrun.
    rewrite (bind_Ret _ _ _ _ _ (children_append_eq _ _ _ _ (Product s cs) cs Ho eq_refl))
      in Hrun.
    cbn [obj_set_children] in Hrun.
    rewrite (bind_Ret _ _ _ _ _
               (children_len_eq _ _ _ (Product s (cs ++ [None])) (cs ++ [None])
                  (list_lookup_insert_eq _ _ _ Hlt) eq_refl)) in Hrun.
    unfold list_getitem in Hrun.
    destruct (scope !! col) as [ident|] eqn:Hid;
      [|cbn [lift] in Hrun; rewrite bind_raise_l in Hrun; discriminate].
    cbn [lift] in Hrun. rewrite bind_ret_l in Hrun.
    rewrite (bind_Ret _ _ _ _ _ (tasks_append_eq _ _ _)) in Hrun.
    destruct (IH _ _ _ _ _ _ _ (list_lookup_insert_eq _ _ _ Hlt) Hrun) as [Hnd Hall].
    split.
    + constructor; [|exact Hnd]. intros Hc.
      destruct (Hall _ Hc) as [Hc' _]. apply list_elem_of_filter in Hc' as [Hne _].
      congruence.
    + intros c Hc. apply elem_of_cons in Hc as [->|Hc].
      * split; [exact Hin|]. eapply lookup_lt_Some. exact Hid.
      * destruct (Hall _ Hc) as [Hc' Hlen]. split; [|exact Hlen].
        apply list_elem_of_filter in Hc' as [_ Hc']. exact Hc'.
Qed.

Lemma for_uninformative_eq (env : env_t) (node : Ref) (local_data : D)
    (scope : Scope) (cols : list nat) :
  forall (h : Heap L W) (q : list (Task D)) s cs rs,
    h !! node = Some (Product s cs) ->
    NoDup cols ->
    (forall c, c ∈ cols -> c ∈ rs /\ c < length scope) ->
    for_uninformative env node local_data scope cols rs (mkState h q)
    = Ret (filter (fun y => y ∉ cols) rs)
          (mkState
             (<[node := Product s (cs ++ replicate (length cols) None)]> h)
             (q ++ column_tasks env node (length cs) local_data scope cols)).
Proof.
  unfold column_tasks.
  induction cols as [|col rest IH]; intros h q s cs rs Ho Hnd Hall.
  - simpl. rewrite !app_nil_r, list_insert_id by exact Ho.
    rewrite filter_all; [reflexivity|]. intros x _ Hx. inversion Hx.
  - pose proof (lookup_lt_Some _ _ _ Ho) as Hlt.
    apply NoDup_cons in Hnd as [Hnotin Hnd].
    destruct (Hall col) as [Hin Hcol]; [left|].
    cbn [for_uninformative].
    rewrite (set_remove_in _ _ Hin). cbn [lift]. rewrite bind_ret_l.
    rewrite (bind_Ret _ _ _ _ _ (children_append_eq _ _ _ _ (Product s cs) cs Ho eq_refl)).
    cbn [obj_set_children].
    rewrite (bind_Ret _ _ _ _ _
               (children_len_eq _ _ _ (Product s (cs ++ [None])) (cs ++ [None])
                  (list_lookup_insert_eq _ _ _ Hlt) eq_refl)).
    rewrite (list_getitem_lt _ _ 0 Hcol). cbn [lift]. rewrite bind_ret_l.
    rewrite (bind_Ret _ _ _ _ _ (tasks_append_eq _ _ _)).
    rewrite (IH _ _ _ _ _ (list_lookup_insert_eq _ _ _ Hlt) Hnd).
    2:{ intros c Hc. destruct (Hall c) as [Hc1 Hc2]; [right; exact Hc|].
        split; [|exact Hc2]. apply list_elem_of_filter. split; [|exact Hc1].
        intros ->. contradiction. }
    rewrite list_insert_insert_eq, imap_cons, <- !app_assoc.
    rewrite length_app. cbn [length replicate app].
    replace (length cs + 1 - 1) with (length cs + 0) by lia.
    rewrite list_filter_filter.
    f_equal.
    + apply list_filter_iff. intros x. rewrite not_elem_of_cons. tauto.
    + do 3 f_equal. apply imap_ext. intros i x _. unfold compose. f_equal. lia.
Qed.
(** ** The handlers in closed form *)

Lemma bind_splice {B : Type} (new_node : @M D L W Ref) (scope : Scope) (parent : Ref)
    (pos : nat) (k : Ref -> @M D L W B) (st : state) :
  bind new_node (fun node =>
    bind (scope_extend node scope) (fun _ =>
      bind (children_setitem parent pos (Some node)) (fun _ => k node))) st
  = bind (splice new_node scope parent pos) k st.
Proof.
  unfold splice, bind.
  destruct (new_node st) as [node st1|]; [|reflexivity].
  destruct (scope_extend node scope st1) as [[] st2|]; [|reflexivity].
  destruct (children_setitem parent pos (Some node) st2) as [[] st3|]; reflexivity.
Qed.

(** The slot assignment [parent.children[pos] = node] on the heap. *)
Lemma handle_requeue_rows (env : env_t) (t : Task D) (p : option (list nat))
    (h : Heap L W) (q : list (Task D)) :
  length (split_rows env (t_local_data t) (ds_context env) (t_scope t)) = 1 ->
  handle env t SPLIT_ROWS p (mkState h q)
  = Ret tt (mkState h (q ++ [mkTask (t_local_data t) (t_parent t) (t_children_pos t)
                                    (t_scope t) true false])).
Proof.
  intros Hone. cbv beta zeta iota delta [handle]. rewrite Hone. reflexivity.
Qed.

Lemma handle_requeue_cols (env : env_t) (t : Task D) (p : option (list nat))
    (h : Heap L W) (q : list (Task D)) :
  length (split_cols env (t_local_data t) (ds_context env) (t_scope t)) = 1 ->
  handle env t SPLIT_COLUMNS p (mkState h q)
  = Ret tt (mkState h (q ++ [mkTask (t_local_data t) (t_parent t) (t_children_pos t)
                                    (t_scope t) false true])).
Proof.
  intros Hone. cbv beta zeta iota delta [handle]. rewrite Hone. reflexivity.
Qed.

Lemma handle_rows_node (env : env_t) (t : Task D) (p : option (list nat))
    (h : Heap L W) (q : list (Task D)) (o : obj) (cs : list (option Ref)) :
  let data_slices := split_rows env (t_local_data t) (ds_context env) (t_scope t) in
  length data_slices <> 1 ->
  h !! t_parent t = Some o -> obj_children o = Ok cs -> t_children_pos t < length cs ->
  handle env t SPLIT_ROWS p (mkState h q)
  = Ret tt (mkState
              (<[t_parent t := obj_set_children o
                                 (<[t_children_pos t := Some (length h)]> cs)]> h
               ++ [Sum (t_scope t) (replicate (length data_slices) None)
                       (snd <$> data_slices)])
              (q ++ row_tasks (length h) 0 (t_scope t) data_slices)).
Proof.
  intros data_slices Hmany Ho Hcs Hpos.
  cbv beta zeta iota delta [handle]. fold data_slices.
  apply Nat.eqb_neq in Hmany. rewrite Hmany.
  rewrite bind_splice.
  rewrite (bind_Ret _ _ _ _ _
             (splice_eq (Sum [] [] []) (Sum (t_scope t) [] []) o cs _ _ _ _ _
                        eq_refl Ho Hcs Hpos)).
  rewrite (for_row_slices_eq _ _ _ _ _ _ _ _ (lookup_snoc_at _ _ _ (length_insert _ _ _))).
  rewrite (insert_snoc_at _ _ _ _ (length_insert _ _ _)).
  reflexivity.
Qed.

Lemma handle_cols_node (env : env_t) (t : Task D) (p : option (list nat))
    (h : Heap L W) (q : list (Task D)) (o : obj) (cs : list (option Ref)) :
  let data_slices := split_cols env (t_local_data t) (ds_context env) (t_scope t) in
  length data_slices <> 1 ->
  h !! t_parent t = Some o -> obj_children o = Ok cs -> t_children_pos t < length cs ->
  handle env t SPLIT_COLUMNS p (mkState h q)
  = Ret tt (mkState
              (<[t_parent t := obj_set_children o
                                 (<[t_children_pos t := Some (length h)]> cs)]> h
               ++ [Product (t_scope t) (replicate (length data_slices) None)])
              (q ++ col_tasks (length h) 0 data_slices)).
Proof.
  intros data_slices Hmany Ho Hcs Hpos.
  cbv beta zeta iota delta [handle]. fold data_slices.
  apply Nat.eqb_neq in Hmany. rewrite Hmany.
  rewrite bind_splice.
  rewrite (bind_Ret _ _ _ _ _
             (splice_eq (Product [] []) (Product (t_scope t) []) o cs _ _ _ _ _
                        eq_refl Ho Hcs Hpos)).
  rewrite (for_col_slices_eq _ _ _ _ _ _ (lookup_snoc_at _ _ _ (length_insert _ _ _))).
  rewrite (insert_snoc_at _ _ _ _ (length_insert _ _ _)).
  reflexivity.
Qed.

Lemma handle_naive (env : env_t) (t : Task D) (p : option (list nat))
    (h : Heap L W) (q : list (Task D)) (o : obj) (cs : list (option Ref)) :
  h !! t_parent t = Some o -> obj_children o = Ok cs -> t_children_pos t < length cs ->
  handle env t NAIVE_FACTORIZATION p (mkState h q)
  = Ret tt (mkState
              (<[t_parent t := obj_set_children o
                                 (<[t_children_pos t := Some (length h)]> cs)]> h
               ++ [Product (t_scope t) (replicate (length (t_scope t)) None)])
              (q ++ column_tasks env (length h) 0 (t_local_data t) (t_scope t)
                                 (seq 0 (length (t_scope t))))).
Proof.
  intros Ho Hcs Hpos.
  cbv beta zeta iota delta [handle].
  rewrite bind_splice.
  rewrite (bind_Ret _ _ _ _ _
             (splice_eq (Product [] []) (Product (t_scope t) []) o cs _ _ _ _ _
                        eq_refl Ho Hcs Hpos)).
  rewrite (for_columns_eq _ _ _ _ _ _ _ _ _ (lookup_snoc_at _ _ _ (length_insert _ _ _))).
  2:{ apply Forall_forall. intros c Hc. apply elem_of_seq in Hc. lia. }
  rewrite (insert_snoc_at _ _ _ _ (length_insert _ _ _)), length_seq.
  reflexivity.
Qed.

Lemma handle_leaf (env : env_t) (t : Task D) (p : option (list nat))
    (h : Heap L W) (q : list (Task D)) (o : obj) (cs : list (option Ref)) :
  h !! t_parent t = Some o -> obj_children o = Ok cs -> t_children_pos t < length cs ->
  handle env t CREATE_LEAF p (mkState h q)
  = Ret tt (mkState
              (<[t_parent t := obj_set_children o
                                 (<[t_children_pos t := Some (length h)]> cs)]> h
               ++ [Leaf (create_leaf env (t_local_data t) (ds_context env) (t_scope t))])
              q).
Proof.
  intros Ho Hcs Hpos.
  pose proof (lookup_lt_Some _ _ _ Ho) as Hlt.
  cbv beta zeta iota delta [handle].
  rewrite (bind_Ret _ _ _ _ _ (new_object_eq _ _ _)).
  rewrite (children_setitem_eq _ _ _ _ _ o cs);
    [|rewrite lookup_app_l by exact Hlt; exact Ho|exact Hcs|exact Hpos].
  rewrite insert_snoc_lt by exact Hlt. reflexivity.
Qed.
Lemma handle_remove (env : env_t) (t : Task D) (cols : list nat)
    (h : Heap L W) (q : list (Task D)) (o : obj) (cs : list (option Ref)) :
  NoDup cols -> (forall c, c ∈ cols -> c < length (t_scope t)) ->
  h !! t_parent t = Some o -> obj_children o = Ok cs -> t_children_pos t < length cs ->
  handle env t REMOVE_UNINFORMATIVE_FEATURES (Some cols) (mkState h q)
  = Ret tt (mkState
              (<[t_parent t := obj_set_children o
                                 (<[t_children_pos t := Some (length h)]> cs)]> h
               ++ [Product (t_scope t) (replicate (S (length cols)) None)])
              (q ++ column_tasks env (length h) 0 (t_local_data t) (t_scope t) cols
                 ++ [rest_task env (length h) (t_local_data t) (t_scope t) cols])).
Proof.
  intros Hnd Hcols Ho Hcs Hpos.
  cbv beta zeta iota delta [handle].
  rewrite bind_splice.
  rewrite (bind_Ret _ _ _ _ _
             (splice_eq (Product [] []) (Product (t_scope t) []) o cs _ _ _ _ _
                        eq_refl Ho Hcs Hpos)).
  cbn [lift]. rewrite bind_ret_l.
  rewrite (bind_Ret _ _ _ _ _
             (for_uninformative_eq env _ _ _ cols _ _ _ _ _
                (lookup_snoc_at _ _ _ (length_insert _ _ _)) Hnd
                (fun c Hc => conj (proj2 (elem_of_seq 0 (length (t_scope t)) c)
                                         (conj (Nat.le_0_l c) (Hcols c Hc)))
                                  (Hcols c Hc)))).
  rewrite (insert_snoc_at _ _ _ _ (length_insert _ _ _)).
  cbn [app length].
  rewrite (bind_Ret _ _ _ _ _
             (children_append_eq _ _ _ _ (Product (t_scope t) (replicate (length cols) None))
                (replicate (length cols) None)
                (lookup_snoc_at _ _ _ (length_insert _ _ _)) eq_refl)).
  cbn [obj_set_children].
  rewrite (insert_snoc_at _ _ _ _ (length_insert _ _ _)).
  rewrite <- replicate_S_end.
  rewrite (bind_Ret _ _ _ _ _
             (children_len_eq _ _ _ (Product (t_scope t) (replicate (S (length cols)) None))
                (replicate (S (length cols)) None)
                (lookup_snoc_at _ _ _ (length_insert _ _ _)) eq_refl)).
  rewrite tasks_append_eq. rewrite length_replicate.
  unfold rest_task, rest_positions. cbn [Nat.sub]. rewrite Nat.sub_0_r, <- app_assoc.
  reflexivity.
Qed.
(** ** One iteration of the loop *)

(** A branch that creates a node returns only if the slot of the parent
    exists. *)
Lemma handle_slot (env : env_t) (t : Task D) (op : Operation)
    (p : option (list nat)) (h : Heap L W) (q : list (Task D)) (st' : state) :
  handle env t op p (mkState h q) = Ret tt st' ->
  requeued env t op = None ->
  exists o cs, h !! t_parent t = Some o /\ obj_children o = Ok cs /\
               t_children_pos t < length cs.
Proof.
  intros Hrun Hreq.
  assert (Hsplice : forall o0 o1 (k : Ref -> @M D L W unit),
    obj_children o0 = Ok [] -> obj_scope_extend o0 (t_scope t) = Ok o1 ->
    bind (splice (new_object o0) (t_scope t) (t_parent t) (t_children_pos t)) k
         (mkState h q) = Ret tt st' ->
    exists o cs, h !! t_parent t = Some o /\ obj_children o = Ok cs /\
                 t_children_pos t < length cs).
  { intros o0 o1 k H0 H1 Hb. apply bind_inv in Hb as (node & st1 & Hs & _).
    destruct (splice_inv _ _ _ _ _ _ _ _ _ H0 H1 Hs) as (o & cs & Ho & Hcs & Hpos & _).
    exists o, cs. auto. }
  destruct op; cbv beta zeta iota delta [handle requeued] in Hrun, Hreq.
  - (* CREATE_LEAF *)
    rewrite (bind_Ret _ _ _ _ _ (new_object_eq _ _ _)) in Hrun.
    destruct (children_setitem_inv _ _ _ _ _ _ Hrun) as (o & cs & Ho & Hcs & Hpos).
    pose proof (lookup_lt_Some _ _ _ Ho) as Hb. rewrite length_app in Hb. simpl in Hb.
    destruct (decide (t_parent t = length h)) as [E|E].
    + rewrite E, lookup_snoc in Ho. inversion Ho; subst. discriminate.
    + rewrite lookup_app_l in Ho by lia. exists o, cs. auto.
  - (* SPLIT_COLUMNS *)
    destruct (length _ =? 1); [discriminate|].
    rewrite bind_splice in Hrun. eapply (Hsplice (Product [] [])); eauto.
  - (* SPLIT_ROWS *)
    destruct (length _ =? 1); [discriminate|].
    rewrite bind_splice in Hrun. eapply (Hsplice (Sum [] [] [])); eauto.
  - (* NAIVE_FACTORIZATION *)
    rewrite bind_splice in Hrun. eapply (Hsplice (Product [] [])); eauto.
  - (* REMOVE_UNINFORMATIVE_FEATURES *)
    rewrite bind_splice in Hrun. eapply (Hsplice (Product [] [])); eauto.
Qed.

(** The REMOVE_UNINFORMATIVE_FEATURES branch returns only for a list of
    distinct positions of the scope. *)
Lemma handle_remove_params (env : env_t) (t : Task D) (p : option (list nat))
    (h : Heap L W) (q : list (Task D)) (st' : state) :
  handle env t REMOVE_UNINFORMATIVE_FEATURES p (mkState h q) = Ret tt st' ->
  exists cols, p = Some cols /\ NoDup cols /\
               forall c, c ∈ cols -> c < length (t_scope t).
Proof.
  intros Hrun.
  destruct (handle_slot _ _ _ _ _ _ _ Hrun eq_refl) as (o & cs & Ho & Hcs & Hpos).
  cbv beta zeta iota delta [handle] in Hrun.
  rewrite bind_splice in Hrun.
  rewrite (bind_Ret _ _ _ _ _
             (splice_eq (Product [] []) (Product (t_scope t) []) o cs _ _ _ _ _
                        eq_refl Ho Hcs Hpos)) in Hrun.
  destruct p as [cols|]; cbn [lift] in Hrun;
    [rewrite bind_ret_l in Hrun|rewrite bind_raise_l in Hrun; discriminate].
  apply bind_inv in Hrun as (rs' & st1 & Hloop & _).
  destruct (for_uninformative_inv _ _ _ _ _ _ _ _ _ _ _ _
              (lookup_snoc_at _ _ _ (length_insert _ _ _)) Hloop) as [Hnd Hall].
  exists cols. split; [reflexivity|]. split; [exact Hnd|].
  intros c Hc. apply Hall. exact Hc.
Qed.

(** What a returning call of a handler does to the state: it puts the task
    back, or it allocates one object, fills the slot of the parent with it
    and appends the tasks of its children. *)
Lemma handle_inv (env : env_t) (t : Task D) (op : Operation)
    (p : option (list nat)) (h : Heap L W) (q : list (Task D)) (st' : state) :
  handle env t op p (mkState h q) = Ret tt st' ->
  match requeued env t op with
  | Some t' => st' = mkState h (q ++ [t'])
  | None =>
      exists o cs new_obj new_tasks,
        h !! t_parent t = Some o /\ obj_children o = Ok cs /\
        t_children_pos t < length cs /\
        built env t (length h) op p = Some (new_obj, new_tasks) /\
        st' = mkState (fill_slot h (t_parent t) (t_children_pos t) (length h) o cs
                       ++ [new_obj])
                      (q ++ new_tasks)
  end.
Proof.
  intros Hrun.
  destruct (requeued env t op) as [t'|] eqn:Hreq.
  - destruct op; cbn [requeued] in Hreq; try discriminate.
    + destruct (length _ =? 1) eqn:E; [|discriminate]. apply Nat.eqb_eq in E.
      rewrite (handle_requeue_cols _ _ _ _ _ E) in Hrun. congruence.
    + destruct (length _ =? 1) eqn:E; [|discriminate]. apply Nat.eqb_eq in E.
      rewrite (handle_requeue_rows _ _ _ _ _ E) in Hrun. congruence.
  - destruct (handle_slot _ _ _ _ _ _ _ Hrun Hreq) as (o & cs & Ho & Hcs & Hpos).
    exists o, cs. unfold fill_slot.
    destruct op; cbn [requeued] in Hreq.
    + rewrite (handle_leaf _ _ _ _ _ _ _ Ho Hcs Hpos) in Hrun.
      inversion Hrun; subst. do 2 eexists.
      split; [exact Ho|split; [exact Hcs|split; [exact Hpos|split; [reflexivity|]]]].
      rewrite app_nil_r. reflexivity.
    + destruct (length _ =? 1) eqn:E; [discriminate|]. apply Nat.eqb_neq in E.
      rewrite (handle_cols_node _ _ _ _ _ _ _ E Ho Hcs Hpos) in Hrun.
      inversion Hrun; subst. eauto 10.
    + destruct (length _ =? 1) eqn:E; [discriminate|]. apply Nat.eqb_neq in E.
      rewrite (handle_rows_node _ _ _ _ _ _ _ E Ho Hcs Hpos) in Hrun.
      inversion Hrun; subst. eauto 10.
    + rewrite (handle_naive _ _ _ _ _ _ _ Ho Hcs Hpos) in Hrun.
      inversion Hrun; subst. eauto 10.
    + destruct (handle_remove_params _ _ _ _ _ _ Hrun) as (cols & -> & Hnd & Hall).
      rewrite (handle_remove _ _ _ _ _ _ _ Hnd Hall Ho Hcs Hpos) in Hrun.
      inversion Hrun; subst. eauto 10.
Qed.

(** The same for an iteration of the loop, which first pops the task and
    asks the policy. *)
Lemma loop_body_inv (env : env_t) (root : Ref) (st st' : state) :
  loop_body env root st = Ret tt st' ->
  exists t rest op p,
    tasks st = t :: rest /\
    call_policy (policy env) (t_local_data t) (t_scope t) (t_no_clusters t)
                (t_no_independencies t) (is_first_arg root t) = Ok (op, p) /\
    handle env t op p (mkState (heap st) rest) = Ret tt st'.
Proof.
  destruct st as [h q]. unfold loop_body, tasks_popleft. cbn [tasks heap].
  destruct q as [|t rest]; [intros Hrun; discriminate|].
  unfold bind at 1. cbn [tasks heap].
  destruct (call_policy _ _ _ _ _ _) as [[op p]|e] eqn:Hpol;
    cbn [lift]; [rewrite bind_ret_l|rewrite bind_raise_l; discriminate].
  intros Hrun. exists t, rest, op, p. auto.
Qed.
(** ** The invariant of the loop *)

Lemma requeued_same (env : env_t) (t t' : Task D) (op : Operation) :
  requeued env t op = Some t' ->
  t_local_data t' = t_local_data t /\ t_parent t' = t_parent t /\
  t_children_pos t' = t_children_pos t /\ t_scope t' = t_scope t.
Proof.
  destruct op; cbn [requeued]; try discriminate;
    destruct (length _ =? 1); try discriminate;
    intros [= <-]; cbn; auto.
Qed.

Lemma built_parent (env : env_t) (t : Task D) (node : Ref) (op : Operation)
    (p : option (list nat)) (o : obj) (ts : list (Task D)) :
  built env t node op p = Some (o, ts) ->
  forall t', t' ∈ ts -> t_parent t' = node.
Proof.
  intros Hb t' Ht'.
  destruct op; cbv beta zeta iota delta [built] in Hb.
  - inversion Hb; subst. inversion Ht'.
  - inversion Hb; subst. unfold col_tasks in Ht'.
    imap_member Ht'. reflexivity.
  - inversion Hb; subst. unfold row_tasks in Ht'.
    imap_member Ht'. reflexivity.
  - inversion Hb; subst. unfold column_tasks in Ht'.
    imap_member Ht'. reflexivity.
  - destruct p as [cols|]; [|discriminate]. inversion Hb; subst.
    apply elem_of_app in Ht' as [Ht'|Ht'].
    + unfold column_tasks in Ht'.
      imap_member Ht'. reflexivity.
    + apply list_elem_of_singleton in Ht' as ->. reflexivity.
Qed.

Lemma built_sum (env : env_t) (t : Task D) (node : Ref) (op : Operation)
    (p : option (list nat)) s cs ws (ts : list (Task D)) :
  built env t node op p = Some (Sum s cs ws, ts) ->
  let data_slices := split_rows env (t_local_data t) (ds_context env) (t_scope t) in
  op = SPLIT_ROWS /\ s = t_scope t /\ cs = replicate (length data_slices) None /\
  ws = (snd <$> data_slices) /\ ts = row_tasks node 0 s data_slices.
Proof.
  intros Hb.
  destruct op; cbv beta zeta iota delta [built] in Hb; try discriminate.
  - inversion Hb; subst. auto 10.
  - destruct p; discriminate.
Qed.

(** Where an object of the heap after a node-creating iteration comes
    from. *)
Lemma lookup_after_fill (h : Heap L W) (parent : Ref) (pos : nat) (node r : Ref)
    (o new_obj x : obj) (cs : list (option Ref)) :
  h !! parent = Some o ->
  (fill_slot h parent pos node o cs ++ [new_obj]) !! r = Some x ->
  (r = parent /\ x = obj_set_children o (<[pos := Some node]> cs))
  \/ (r <> parent /\ r < length h /\ h !! r = Some x)
  \/ (r = length h /\ x = new_obj).
Proof.
  intros Ho Hx. unfold fill_slot in Hx.
  pose proof (lookup_lt_Some _ _ _ Ho) as Hlt.
  destruct (decide (r < length h)) as [Hr|Hr].
  - rewrite lookup_app_l in Hx by (rewrite length_insert; exact Hr).
    destruct (decide (r = parent)) as [->|Hne].
    + rewrite list_lookup_insert_eq in Hx by exact Hlt. inversion Hx. auto.
    + rewrite list_lookup_insert_ne in Hx by congruence. auto.
  - destruct (decide (r = length h)) as [->|Hne].
    + rewrite (lookup_snoc_at _ _ _ (length_insert _ _ _)) in Hx. inversion Hx. auto.
    + rewrite lookup_ge_None_2 in Hx; [discriminate|].
      rewrite length_app, length_insert. simpl. lia.
Qed.

Lemma initial_state_invariant (env : env_t) (dataset : D) (initial_scope : Scope) :
  loop_invariant env dataset initial_scope (initial_state dataset initial_scope).
Proof.
  constructor; cbn.
  - exists None. split; [reflexivity|]. intros _. eexists. split; [left|reflexivity].
  - intros t Ht. apply list_elem_of_singleton in Ht as ->. cbn. lia.
  - intros t Ht _. apply list_elem_of_singleton in Ht as ->. repeat split.
  - intros [|r] s cs ws Hr; cbn in Hr; discriminate.
Qed.
(** An iteration that puts the task back keeps the invariant. *)
Lemma invariant_requeue (env : env_t) (dataset : D) (initial_scope : Scope)
    (h : Heap L W) (t t' : Task D) (rest : list (Task D)) (op : Operation) :
  loop_invariant env dataset initial_scope (mkState h (t :: rest)) ->
  requeued env t op = Some t' ->
  loop_invariant env dataset initial_scope (mkState h (rest ++ [t'])).
Proof.
  intros [Hroot Hpar Hseed Hsums] Hreq. cbn [heap tasks] in *.
  destruct (requeued_same _ _ _ _ Hreq) as (Hd & Hp & Hc & Hs).
  assert (Ht : t ∈ t :: rest) by left.
  assert (Hrest : forall x, x ∈ rest -> x ∈ t :: rest) by (intros x Hx; right; exact Hx).
  constructor; cbn [heap tasks].
  - destruct Hroot as (c & Hc0 & Hnone). exists c. split; [exact Hc0|].
    intros Hcn. destruct (Hnone Hcn) as (x & Hx & Hx0).
    apply elem_of_cons in Hx as [->|Hx].
    + exists t'. split; [apply elem_of_app; right; left|congruence].
    + exists x. split; [apply elem_of_app; left; exact Hx|exact Hx0].
  - intros x Hx. apply elem_of_app in Hx as [Hx|Hx].
    + apply Hpar, Hrest, Hx.
    + apply list_elem_of_singleton in Hx as ->. rewrite Hp. apply Hpar, Ht.
  - intros x Hx Hx0. apply elem_of_app in Hx as [Hx|Hx].
    + apply Hseed; [apply Hrest, Hx|exact Hx0].
    + apply list_elem_of_singleton in Hx as ->.
      unfold seed_like. rewrite Hd, Hc, Hs. apply Hseed; [exact Ht|congruence].
  - intros r s cs ws Hr. destruct (Hsums r s cs ws Hr) as (Hlen & d & Hws & Htasks).
    cbn [heap tasks] in *.
    split; [exact Hlen|]. exists d. split; [exact Hws|].
    intros x Hx Hxr. apply elem_of_app in Hx as [Hx|Hx].
    + apply Htasks; [apply Hrest, Hx|exact Hxr].
    + apply list_elem_of_singleton in Hx as ->.
      rewrite Hd, Hc, Hs. apply Htasks; [exact Ht|congruence].
Qed.

(** An iteration that creates a node keeps the invariant. *)
Lemma invariant_node (env : env_t) (dataset : D) (initial_scope : Scope)
    (h : Heap L W) (t : Task D) (rest : list (Task D)) (op : Operation)
    (p : option (list nat)) (o new_obj : obj) (cs : list (option Ref))
    (new_tasks : list (Task D)) :
  loop_invariant env dataset initial_scope (mkState h (t :: rest)) ->
  h !! t_parent t = Some o -> obj_children o = Ok cs ->
  t_children_pos t < length cs ->
  built env t (length h) op p = Some (new_obj, new_tasks) ->
  loop_invariant env dataset initial_scope
    (mkState (fill_slot h (t_parent t) (t_children_pos t) (length h) o cs ++ [new_obj])
             (rest ++ new_tasks)).
Proof.
  intros [Hroot Hpar Hseed Hsums] Ho Hcs Hpos Hb. cbn [heap tasks] in *.
  assert (Ht : t ∈ t :: rest) by left.
  assert (Hrest : forall x, x ∈ rest -> x ∈ t :: rest) by (intros x Hx; right; exact Hx).
  pose proof (built_parent _ _ _ _ _ _ _ Hb) as Hnew.
  pose proof (lookup_lt_Some _ _ _ Ho) as Hlt.
  assert (Hlen : length (fill_slot h (t_parent t) (t_children_pos t) (length h) o cs)
                 = length h) by (unfold fill_slot; apply length_insert).
  constructor; cbn [heap tasks].
  - destruct Hroot as (c & Hc0 & Hnone).
    destruct (decide (t_parent t = 0)) as [E|E].
    + exists (Some (length h)). split; [|discriminate].
      rewrite lookup_app_l by lia. unfold fill_slot. rewrite E.
      rewrite list_lookup_insert_eq by lia.
      rewrite E, Hc0 in Ho. inversion Ho; subst o. cbn in Hcs. inversion Hcs; subst cs.
      destruct (Hseed t Ht E) as (_ & Hp0 & _). rewrite Hp0. reflexivity.
    + exists c. split.
      * rewrite lookup_app_l by lia. unfold fill_slot.
        rewrite list_lookup_insert_ne by exact E. exact Hc0.
      * intros Hcn. destruct (Hnone Hcn) as (x & Hx & Hx0).
        apply elem_of_cons in Hx as [->|Hx]; [contradiction|].
        exists x. split; [apply elem_of_app; left; exact Hx|exact Hx0].
  - intros x Hx. rewrite length_app, Hlen. cbn [length].
    apply elem_of_app in Hx as [Hx|Hx].
    + pose proof (Hpar x (Hrest x Hx)). lia.
    + rewrite (Hnew x Hx). lia.
  - intros x Hx Hx0. apply elem_of_app in Hx as [Hx|Hx].
    + apply Hseed; [apply Hrest, Hx|exact Hx0].
    + rewrite (Hnew x Hx) in Hx0. lia.
  - intros r s cs' ws Hr.
    destruct (lookup_after_fill _ _ _ _ _ _ _ _ _ Ho Hr)
      as [[Er Hx]|[(Hne & Hr' & Hx)|[Er Hx]]]; try subst r.
    + (* the parent, a Sum whose slot was filled *)
      destruct o as [s0 cs0 ws0| |]; cbn in Hx, Hcs; try discriminate.
      inversion Hx; subst s0 ws0 cs'. inversion Hcs; subst cs0.
      destruct (Hsums _ _ _ _ Ho) as (Hl & d & Hws & Htasks). cbn [heap tasks] in *.
      split; [rewrite length_insert; exact Hl|].
      exists d. split; [exact Hws|].
      intros x Hx' Hxr. apply elem_of_app in Hx' as [Hx'|Hx'].
      * apply Htasks; [apply Hrest, Hx'|exact Hxr].
      * rewrite (Hnew x Hx') in Hxr. lia.
    + (* an older object, untouched *)
      destruct (Hsums _ _ _ _ Hx) as (Hl & d & Hws & Htasks). cbn [heap tasks] in *.
      split; [exact Hl|]. exists d. split; [exact Hws|].
      intros x Hx' Hxr. apply elem_of_app in Hx' as [Hx'|Hx'].
      * apply Htasks; [apply Hrest, Hx'|exact Hxr].
      * rewrite (Hnew x Hx') in Hxr. lia.
    + (* the new object *)
      subst new_obj.
      destruct (built_sum _ _ _ _ _ _ _ _ _ Hb) as (_ & -> & -> & -> & ->).
      split; [rewrite length_fmap, length_replicate; reflexivity|].
      exists (t_local_data t). split; [reflexivity|].
      intros x Hx' Hxr. apply elem_of_app in Hx' as [Hx'|Hx'].
      * pose proof (Hpar x (Hrest x Hx')). lia.
      * unfold row_tasks in Hx'.
        apply elem_of_lookup_imap in Hx' as (i & tr & -> & Htr).
        exists tr. cbn. auto.
Qed.

Lemma loop_body_invariant (env : env_t) (dataset : D) (initial_scope : Scope)
    (st st' : state) :
  loop_invariant env dataset initial_scope st ->
  loop_body env 0 st = Ret tt st' ->
  loop_invariant env dataset initial_scope st'.
Proof.
  intros Hinv Hrun.
  destruct (loop_body_inv _ _ _ _ Hrun) as (t & rest & op & p & Hq & _ & Hh).
  destruct st as [h q]. cbn [heap tasks] in *. subst q.
  apply handle_inv in Hh.
  destruct (requeued env t op) as [t'|] eqn:Hreq.
  - subst st'. eapply invariant_requeue; eauto.
  - destruct Hh as (o & cs & new_obj & new_tasks & Ho & Hcs & Hpos & Hb & ->).
    eapply invariant_node; eauto.
Qed.

Lemma reachable_invariant (env : env_t) (dataset : D) (initial_scope : Scope)
    (st : state) :
  reachable env 0 (initial_state dataset initial_scope) st ->
  loop_invariant env dataset initial_scope st.
Proof.
  induction 1 as [|st st' _ IH Hrun].
  - apply initial_state_invariant.
  - eapply loop_body_invariant; eauto.
Qed.
(** ** Tasks with both flags set *)

Lemma requeued_flags (env : env_t) (t t' : Task D) (op : Operation) :
  requeued env t op = Some t' ->
  t_no_clusters t' && t_no_independencies t' = false.
Proof.
  destruct op; cbn [requeued]; try discriminate;
    destruct (length _ =? 1); try discriminate;
    intros [= <-]; reflexivity.
Qed.

Lemma built_flags (env : env_t) (t : Task D) (node : Ref) (op : Operation)
    (p : option (list nat)) (o : obj) (ts : list (Task D)) :
  built env t node op p = Some (o, ts) ->
  forall x, x ∈ ts ->
    t_no_clusters x && t_no_independencies x = true -> length (t_scope x) = 1.
Proof.
  intros Hb x Hx.
  destruct op; cbv beta zeta iota delta [built] in Hb.
  - inversion Hb; subst. inversion Hx.
  - inversion Hb; subst. unfold col_tasks in Hx.
    imap_member Hx. discriminate.
  - inversion Hb; subst. unfold row_tasks in Hx.
    imap_member Hx. discriminate.
  - inversion Hb; subst. unfold column_tasks in Hx.
    imap_member Hx. reflexivity.
  - destruct p as [cols|]; [|discriminate]. inversion Hb; subst.
    apply elem_of_app in Hx as [Hx|Hx].
    + unfold column_tasks in Hx.
      imap_member Hx. reflexivity.
    + apply list_elem_of_singleton in Hx as ->. unfold rest_task. cbn.
      rewrite andb_diag. apply Nat.eqb_eq.
Qed.

(** X19: Within a call, a pending task has both flags set only if its scope is a
    single column.  Such a task is settled by the first rule of the policy,
    so the disjunct [no_clusters and no_independencies] of its third rule,
    the one exit from repeated single-triple splits, never decides. *)
Lemma both_flags_single_column (env : env_t) (dataset : D)
    (initial_scope : Scope) (st : state) :
  reachable env 0 (initial_state dataset initial_scope) st ->
  forall t, t ∈ tasks st ->
    t_no_clusters t && t_no_independencies t = true -> length (t_scope t) = 1.
Proof.
  induction 1 as [|st st' _ IH Hrun]; intros x Hx Hflags.
  - apply list_elem_of_singleton in Hx as ->. discriminate.
  - destruct (loop_body_inv _ _ _ _ Hrun) as (t & rest & op & p & Hq & _ & Hh).
    apply handle_inv in Hh.
    assert (Hrest : forall y, y ∈ rest -> y ∈ tasks st)
      by (intros y Hy; rewrite Hq; right; exact Hy).
    destruct (requeued env t op) as [t'|] eqn:Hreq.
    + subst st'. cbn [tasks] in Hx. apply elem_of_app in Hx as [Hx|Hx].
      * apply IH; [apply Hrest, Hx|exact Hflags].
      * apply list_elem_of_singleton in Hx as ->.
        rewrite (requeued_flags _ _ _ _ Hreq) in Hflags. discriminate.
    + destruct Hh as (o & cs & new_obj & new_tasks & _ & _ & _ & Hb & ->).
      cbn [tasks] in Hx. apply elem_of_app in Hx as [Hx|Hx].
      * apply IH; [apply Hrest, Hx|exact Hflags].
      * eapply built_flags; eauto.
Qed.

(** ** Single-triple splits *)

Lemma loop_body_eq (env : env_t) (root : Ref) (h : Heap L W) (t : Task D)
    (rest : list (Task D)) (op : Operation) (p : option (list nat)) :
  call_policy (policy env) (t_local_data t) (t_scope t) (t_no_clusters t)
              (t_no_independencies t) (is_first_arg root t) = Ok (op, p) ->
  loop_body env root (mkState h (t :: rest)) = handle env t op p (mkState h rest).
Proof.
  intros Hpol. unfold loop_body, tasks_popleft. unfold bind at 1. cbn [tasks heap].
  rewrite Hpol. reflexivity.
Qed.

(** C2: what the builder does when a splitter returns exactly one triple.
    No node is created (the heap is unchanged) and the task is appended again
    with the same slice, parent, slot and scope; the flags are the constants
    [(True, False)] after [split_rows] and [(False, True)] after
    [split_cols], so the flag that is not escalated is written [False]
    whatever it was. *)
Theorem single_triple_requeue (env : env_t) (root : Ref) (h : Heap L W)
    (t : Task D) (rest : list (Task D)) (p : option (list nat)) :
  (call_policy (policy env) (t_local_data t) (t_scope t) (t_no_clusters t)
               (t_no_independencies t) (is_first_arg root t) = Ok (SPLIT_ROWS, p) ->
   length (split_rows env (t_local_data t) (ds_context env) (t_scope t)) = 1 ->
   loop_body env root (mkState h (t :: rest))
   = Ret tt (mkState h (rest ++ [mkTask (t_local_data t) (t_parent t)
                                        (t_children_pos t) (t_scope t) true false])))
  /\
  (call_policy (policy env) (t_local_data t) (t_scope t) (t_no_clusters t)
               (t_no_independencies t) (is_first_arg root t) = Ok (SPLIT_COLUMNS, p) ->
   length (split_cols env (t_local_data t) (ds_context env) (t_scope t)) = 1 ->
   loop_body env root (mkState h (t :: rest))
   = Ret tt (mkState h (rest ++ [mkTask (t_local_data t) (t_parent t)
                                        (t_children_pos t) (t_scope t) false true]))).
Proof.
  split; intros Hpol Hone; rewrite (loop_body_eq _ _ _ _ _ _ _ Hpol).
  - apply handle_requeue_rows. exact Hone.
  - apply handle_requeue_cols. exact Hone.
Qed.

(** The policy on a slice with several columns, none of them constant, and
    more rows than the floor. *)
Lemma next_operation_no_structure (m : Z) (data : D) (scope : Scope)
    (nc ni f : bool) :
  length scope <> 1 ->
  (m < Z.of_nat (shape0 data))%Z ->
  (forall j, j < length scope `min` shape1 data -> var_is_zero data j = false) ->
  next_operation m data scope nc ni f true false
  = Ok (if nc && ni then NAIVE_FACTORIZATION
        else if ni then SPLIT_ROWS
        else if nc then SPLIT_COLUMNS
        else if f then SPLIT_ROWS else SPLIT_COLUMNS, None).
Proof.
  intros Hlen Hrows Hvar. unfold next_operation.
  destruct (length scope =? 1) eqn:E; [apply Nat.eqb_eq in E; contradiction|].
  rewrite np_sum_fmap, filter_none.
  2:{ intros j Hj. apply elem_of_seq in Hj. rewrite Hvar by lia. discriminate. }
  cbn [length Nat.ltb Nat.leb].
  destruct (Z.leb_spec (Z.of_nat (shape0 data)) m); [lia|].
  cbn [orb]. destruct nc, ni, f; reflexivity.
Qed.

Lemma flags_after_step (k : nat) :
  flags_after (S k)
  = match flags_after k with
    | (false, false) => (true, false)
    | (true, false) => (false, true)
    | _ => (true, false)
    end.
Proof.
  destruct k as [|k]; [reflexivity|].
  unfold flags_after. rewrite (Nat.odd_succ (S k)), <- Nat.negb_odd.
  destruct (Nat.odd (S k)); reflexivity.
Qed.

Lemma flags_after_cases (k : nat) :
  flags_after k = (false, false) \/ flags_after k = (true, false)
  \/ flags_after k = (false, true).
Proof.
  destruct k as [|k]; [auto|]. unfold flags_after. destruct (Nat.odd (S k)); auto.
Qed.

Section SingleTriples.
Variables (env : env_t) (m : Z) (dataset : D) (scope : Scope).
Hypothesis policy_default : policy env = get_next_operation m.
Hypothesis rows_single : forall d c s, length (split_rows env d c s) = 1.
Hypothesis cols_single : forall d c s, length (split_cols env d c s) = 1.
Hypothesis scope_several : length scope <> 1.
Hypothesis rows_above_floor : (m < Z.of_nat (shape0 dataset))%Z.
Hypothesis no_constant_column :
  forall j, j < length scope `min` shape1 dataset -> var_is_zero dataset j = false.

Lemma seed_policy (nc ni : bool) :
  call_policy (policy env) dataset scope nc ni true
  = Ok (if nc && ni then NAIVE_FACTORIZATION
        else if ni then SPLIT_ROWS
        else if nc then SPLIT_COLUMNS else SPLIT_ROWS, None).
Proof using policy_default scope_several rows_above_floor no_constant_column.
  unfold call_policy. rewrite policy_default. cbn [get_next_operation
    policy_body default_cluster_first default_cluster_univariate].
  apply next_operation_no_structure; assumption.
Qed.

Lemma seed_state_step (k : nat) :
  loop_body env 0 (seed_state dataset scope (flags_after k)) = Ret tt (seed_state dataset scope (flags_after (S k))).
Proof using All.
  rewrite flags_after_step. unfold seed_state.
  destruct (flags_after_cases k) as [E|[E|E]]; rewrite E; cbn [fst snd].
  - rewrite (loop_body_eq _ _ _ _ _ SPLIT_ROWS None) by apply seed_policy.
    rewrite handle_requeue_rows by apply rows_single. reflexivity.
  - rewrite (loop_body_eq _ _ _ _ _ SPLIT_COLUMNS None) by apply seed_policy.
    rewrite handle_requeue_cols by apply cols_single. reflexivity.
  - rewrite (loop_body_eq _ _ _ _ _ SPLIT_ROWS None) by apply seed_policy.
    rewrite handle_requeue_rows by apply rows_single. reflexivity.
Qed.

Lemma seed_state_loops (fuel k : nat) :
  while_tasks env fuel 0 (seed_state dataset scope (flags_after k))
  = OutOfFuel (seed_state dataset scope (flags_after (k + fuel))).
Proof using All.
  revert k. induction fuel as [|fuel IH]; intros k.
  - rewrite Nat.add_0_r. reflexivity.
  - cbn [while_tasks seed_state tasks]. fold (@seed_state D L W dataset scope (flags_after k)).
    rewrite seed_state_step, IH. do 2 f_equal. f_equal. lia.
Qed.
End SingleTriples.
Lemma setup_eq (dataset : D) (initial_scope : Scope) :
  setup dataset initial_scope (@empty_state D L W)
  = Ret 0 (initial_state dataset initial_scope).
Proof. reflexivity. Qed.

(** C1: with the policy of [get_next_operation], a dataset with more rows
    than the floor, a scope of several columns none of which is constant, and
    splitters that always return exactly one triple, the loop never drains:
    whatever the fuel, the call is still running, nothing but the root
    wrapper has been allocated, its placeholder is unfilled, and the one
    pending task is the seed task, put back once per iteration with the flags
    alternating between [(True, False)] and [(False, True)]. *)
Theorem single_triple_splitters_never_drain (imp : Imports L W) (fuel : nat)
    (dataset : D) (ctx : Ctx) (sr sc : Splitter D Ctx W)
    (cl : D -> Ctx -> Scope -> L) (m : Z) (initial_scope : option Scope)
    (slicer : D -> list nat -> D) :
  let scope := default (seq 0 (shape1 dataset)) initial_scope in
  (forall d c s, length (sr d c s) = 1) ->
  (forall d c s, length (sc d c s) = 1) ->
  length scope <> 1 ->
  (m < Z.of_nat (shape0 dataset))%Z ->
  (forall j, j < length scope `min` shape1 dataset -> var_is_zero dataset j = false) ->
  learn_structure imp fuel (Some dataset) (Some ctx) (Some sr) (Some sc) (Some cl)
                  (Some (get_next_operation m)) initial_scope slicer
  = OutOfFuel (seed_state dataset scope (flags_after fuel)).
Proof.
  intros scope Hrows Hcols Hscope Hfloor Hvar.
  unfold learn_structure.
  change (match initial_scope with Some s => s | None => seq 0 (shape1 dataset) end)
    with scope.
  rewrite setup_eq.
  change (initial_state dataset scope)
    with (@seed_state D L W dataset scope (flags_after 0)).
  rewrite (seed_state_loops (mkEnv ctx sr sc cl (get_next_operation m) slicer)
             m dataset scope eq_refl Hrows Hcols Hscope Hfloor Hvar).
  reflexivity.
Qed.

(** ** Preconditions *)

(** C9: if one of the six asserted arguments is [None], the call fails with
    an [AssertionError] in the state in which it started: no object has been
    allocated (not even the root wrapper) and there is no task; no iteration
    is needed for that, the fuel is arbitrary. *)
Theorem learn_structure_asserts (imp : Imports L W) (fuel : nat)
    (dataset : option D) (ds_context : option Ctx)
    (split_rows split_cols : option (Splitter D Ctx W))
    (create_leaf : option (D -> Ctx -> Scope -> L))
    (next_operation : option (PolicyFn D)) (initial_scope : option Scope)
    (data_slicer : D -> list nat -> D) :
  dataset = None \/ ds_context = None \/ split_rows = None \/ split_cols = None \/
  create_leaf = None \/ next_operation = None ->
  learn_structure imp fuel dataset ds_context split_rows split_cols create_leaf
                  next_operation initial_scope data_slicer
  = Failed AssertionError empty_state.
Proof.
  intros Hnone. unfold learn_structure.
  destruct dataset, ds_context, split_rows, split_cols, create_leaf, next_operation;
    try reflexivity.
  destruct Hnone as [E|[E|[E|[E|[E|E]]]]]; discriminate.
Qed.

(** ** The scopes of REMOVE_UNINFORMATIVE_FEATURES *)

(** C3: what the REMOVE_UNINFORMATIVE_FEATURES branch enqueues.  For every
    column [col] of the auxiliary list there is a single-column task with
    the scope [[scope[col]]] ([column_tasks]); the last task, for the
    columns that are left, has as its scope the list [rest_positions] of
    their scope-relative positions ([rest_task]), not the identifiers
    [scope[i]]. *)
Theorem remove_uninformative_enqueues (env : env_t) (root : Ref) (h : Heap L W)
    (t : Task D) (rest : list (Task D)) (cols : list nat) (o : obj)
    (cs : list (option Ref)) :
  call_policy (policy env) (t_local_data t) (t_scope t) (t_no_clusters t)
              (t_no_independencies t) (is_first_arg root t)
  = Ok (REMOVE_UNINFORMATIVE_FEATURES, Some cols) ->
  NoDup cols -> (forall c, c ∈ cols -> c < length (t_scope t)) ->
  h !! t_parent t = Some o -> obj_children o = Ok cs -> t_children_pos t < length cs ->
  loop_body env root (mkState h (t :: rest))
  = Ret tt
      (mkState
         (fill_slot h (t_parent t) (t_children_pos t) (length h) o cs
          ++ [Product (t_scope t) (replicate (S (length cols)) None)])
         (rest
          ++ imap (fun i col =>
                     mkTask (data_slicer env (t_local_data t) [col]) (length h) i
                            [nth col (t_scope t) 0] true true) cols
          ++ [let rest_scope := rest_positions (t_scope t) cols in
              mkTask (data_slicer env (t_local_data t) rest_scope) (length h)
                     (length cols) rest_scope
                     (length rest_scope =? 1) (length rest_scope =? 1)])).
Proof.
  intros Hpol Hnd Hcols Ho Hcs Hpos.
  rewrite (loop_body_eq _ _ _ _ _ _ _ Hpol).
  rewrite (handle_remove _ _ _ _ _ _ _ Hnd Hcols Ho Hcs Hpos).
  reflexivity.
Qed.
(** ** After the loop *)

Lemma while_tasks_finished (env : env_t) (root : Ref) (st0 : state) (fuel : nat) :
  forall st st',
    reachable env root st0 st ->
    while_tasks env fuel root st = Finished tt st' ->
    reachable env root st0 st' /\ tasks st' = [].
Proof.
  induction fuel as [|fuel IH]; intros st st' Hreach Hrun.
  - cbn [while_tasks] in Hrun. destruct (tasks st) eqn:Hq; [|discriminate].
    inversion Hrun; subst. auto.
  - cbn [while_tasks] in Hrun. destruct (tasks st) eqn:Hq.
    + inversion Hrun; subst. auto.
    + destruct (loop_body env root st) as [[] st1|e st1] eqn:Hbody; [|discriminate].
      apply (IH st1); [|exact Hrun]. eapply reachable_iter; eauto.
Qed.

(** When the loop has drained, the one slot of the root wrapper is filled. *)
Lemma drained_root_filled (env : env_t) (dataset : D) (initial_scope : Scope)
    (fuel : nat) (st : state) :
  while_tasks env fuel 0 (initial_state dataset initial_scope) = Finished tt st ->
  tasks st = [] /\ exists child, heap st !! 0 = Some (Product [] [Some child]).
Proof.
  intros Hrun.
  destruct (while_tasks_finished _ _ _ _ _ _ (reachable_start _ _ _) Hrun)
    as [Hreach Hq].
  split; [exact Hq|].
  destruct (inv_root _ _ _ _ (reachable_invariant _ _ _ _ Hreach)) as (c & Hc & Hnone).
  destruct c as [child|]; [exists child; exact Hc|].
  destruct (Hnone eq_refl) as (t & Ht & _). rewrite Hq in Ht. inversion Ht.
Qed.

Lemma post_processing_eq (imp : Imports L W) (h : Heap L W) (q : list (Task D))
    (c : option Ref) :
  h !! 0 = Some (Product [] [c]) ->
  post_processing imp 0 (mkState h q)
  = let pruned := Prune imp (assign_ids imp h c) c in
    if fst (is_valid imp (fst pruned) (snd pruned))
    then Ret (snd pruned) (mkState (fst pruned) q)
    else Exc AssertionError (mkState (fst pruned) q).
Proof.
  intros Hroot. unfold post_processing, children_getitem.
  unfold bind at 1. unfold bind at 1. unfold deref. cbn [heap]. rewrite Hroot.
  cbn. unfold bind, ret, raise. cbn.
  destruct (fst (is_valid imp _ _)); reflexivity.
Qed.

Lemma post_processing_valid (imp : Imports L W) (root : Ref) (st st' : state)
    (node : option Ref) :
  post_processing imp root st = Ret node st' ->
  fst (is_valid imp (heap st') node) = true.
Proof.
  unfold post_processing. intros Hrun.
  apply bind_inv in Hrun as (c & st1 & _ & Hrun).
  unfold bind, ret, raise in Hrun. cbn in Hrun.
  destruct (fst (is_valid imp _ _)) eqn:Hvalid; [|discriminate].
  inversion Hrun; subst. cbn. exact Hvalid.
Qed.

(** C8: once the loop has drained, the call takes the filled child of the
    root wrapper, assigns identifiers, prunes, and checks the pruned node: it
    returns the pruned node if the check succeeds and raises
    [AssertionError] if it fails.  Hence whatever the call returns passes the
    validity check. *)
Theorem learn_structure_validates (imp : Imports L W) (fuel : nat)
    (dataset : D) (ctx : Ctx) (sr sc : Splitter D Ctx W)
    (cl : D -> Ctx -> Scope -> L) (pol : PolicyFn D)
    (initial_scope : option Scope) (slicer : D -> list nat -> D) :
  let env := mkEnv ctx sr sc cl pol slicer in
  let scope := default (seq 0 (shape1 dataset)) initial_scope in
  let call := learn_structure imp fuel (Some dataset) (Some ctx) (Some sr) (Some sc)
                              (Some cl) (Some pol) initial_scope slicer in
  (forall st,
     while_tasks env fuel 0 (initial_state dataset scope) = Finished tt st ->
     exists child,
       heap st !! 0 = Some (Product [] [Some child]) /\
       let pruned := Prune imp (assign_ids imp (heap st) (Some child)) (Some child) in
       call = if fst (is_valid imp (fst pruned) (snd pruned))
              then Finished (snd pruned) (mkState (fst pruned) [])
              else Failed AssertionError (mkState (fst pruned) []))
  /\
  (forall node st,
     call = Finished node st -> fst (is_valid imp (heap st) node) = true).
Proof.
  intros env scope call. split.
  - intros st Hrun.
    destruct (drained_root_filled _ _ _ _ _ Hrun) as (Hq & child & Hroot).
    exists child. split; [exact Hroot|].
    unfold call, learn_structure.
    change (match initial_scope with Some s => s | None => seq 0 (shape1 dataset) end)
      with scope.
    rewrite setup_eq. fold env. rewrite Hrun.
    destruct st as [h q]. cbn [heap tasks] in *. subst q.
    rewrite (post_processing_eq _ _ _ _ Hroot). cbv zeta.
    destruct (fst (is_valid imp _ _)); reflexivity.
  - intros node st. unfold call, learn_structure. rewrite setup_eq.
    destruct (while_tasks _ _ _ _) as [[] st1|e st1|st1]; try discriminate.
    destruct (post_processing imp 0 st1) as [n st2|e st2] eqn:Hpost; [|discriminate].
    intros [= <- <-]. eapply post_processing_valid. exact Hpost.
Qed.
(** ** The flags passed to the policy *)

(** C10: in every state the loop passes through, with a policy made by
    [get_next_operation]: the iteration calls [next_operation] on the head
    task with [is_first] equal to "the parent is the root wrapper",
    [cluster_first = True] and [cluster_univariate = False]; a pending task
    for which [is_first] is true is the seed task or a copy of it that was
    put back (the whole dataset, the initial scope, slot 0 of the root); and
    of the tasks an iteration appends, a task put back has the [is_first] of
    the task it copies, while the tasks of a new node all have [is_first]
    false. *)
Theorem is_first_is_parent_is_root (env : env_t) (m : Z) (dataset : D)
    (initial_scope : Scope) (st : state) (t : Task D) (rest : list (Task D)) :
  policy env = get_next_operation m ->
  reachable env 0 (initial_state dataset initial_scope) st ->
  tasks st = t :: rest ->
  loop_body env 0 st
  = bind (lift (next_operation m (t_local_data t) (t_scope t) (t_no_clusters t)
                               (t_no_independencies t)
                               (bool_decide (t_parent t = 0)) true false))
         (fun decision => handle env t (fst decision) (snd decision))
         (mkState (heap st) rest)
  /\
  (forall x, x ∈ tasks st -> is_first_arg 0 x = true ->
             t_parent x = 0 /\ seed_like dataset initial_scope x)
  /\
  (forall st', loop_body env 0 st = Ret tt st' ->
     exists new_tasks,
       tasks st' = rest ++ new_tasks /\
       ((exists t', new_tasks = [t'] /\
                    t_local_data t' = t_local_data t /\ t_parent t' = t_parent t /\
                    t_children_pos t' = t_children_pos t /\ t_scope t' = t_scope t /\
                    is_first_arg 0 t' = is_first_arg 0 t)
        \/ (forall x, x ∈ new_tasks -> is_first_arg 0 x = false))).
Proof.
  intros Hpol Hreach Hq.
  pose proof (reachable_invariant _ _ _ _ Hreach) as [Hroot Hpar Hseed _].
  split; [|split].
  - destruct st as [h q]. cbn [tasks heap] in *. subst q.
    unfold loop_body, tasks_popleft. unfold bind at 1. cbn [tasks heap].
    unfold call_policy. rewrite Hpol. reflexivity.
  - intros x Hx Hfirst. unfold is_first_arg in Hfirst.
    apply bool_decide_eq_true in Hfirst. split; [exact Hfirst|].
    apply Hseed; assumption.
  - intros st' Hrun.
    destruct (loop_body_inv _ _ _ _ Hrun) as (t0 & rest0 & op & p & Hq0 & _ & Hh).
    rewrite Hq in Hq0. inversion Hq0; subst t0 rest0.
    apply handle_inv in Hh.
    destruct (requeued env t op) as [t'|] eqn:Hreq.
    + subst st'. exists [t']. split; [reflexivity|]. left. exists t'.
      destruct (requeued_same _ _ _ _ Hreq) as (Hd & Hp & Hc & Hs).
      unfold is_first_arg. rewrite Hp. auto 10.
    + destruct Hh as (o & cs & new_obj & new_tasks & Ho & _ & _ & Hb & ->).
      exists new_tasks. split; [reflexivity|]. right.
      intros x Hx. unfold is_first_arg.
      rewrite (built_parent _ _ _ _ _ _ _ Hb x Hx).
      apply bool_decide_eq_false. pose proof (lookup_lt_Some _ _ _ Ho). lia.
Qed.

(** ** Weights and children of a Sum *)

(** C4: in every state the loop passes through, a [Sum] of the heap has as
    many weights as child slots, and its weights are, in order, the
    proportions of the triples of one call of [split_rows] on the scope of
    the node.  A pending task for child slot [i] of the node holds the row
    subset of triple [i], whose proportion is weight [i].  The iteration
    that fills an empty slot [i] of the node is the one that handles such a
    task, and it fills the slot with the node it builds for that task. *)
Theorem sum_weights_follow_children (env : env_t) (dataset : D)
    (initial_scope : Scope) (st : state) (r : Ref) (s : Scope)
    (cs : list (option Ref)) (ws : list W) :
  reachable env 0 (initial_state dataset initial_scope) st ->
  heap st !! r = Some (Sum s cs ws) ->
  length ws = length cs /\
  exists d,
    let data_slices := split_rows env d (ds_context env) s in
    ws = (snd <$> data_slices) /\
    (forall t, t ∈ tasks st -> t_parent t = r ->
       exists tr,
         data_slices !! t_children_pos t = Some tr /\
         t_local_data t = fst (fst tr) /\
         ws !! t_children_pos t = Some (snd tr)) /\
    (forall st' i cs' child,
       loop_body env 0 st = Ret tt st' ->
       cs !! i = Some None ->
       heap st' !! r = Some (Sum s cs' ws) ->
       cs' !! i = Some (Some child) ->
       exists t rest tr,
         tasks st = t :: rest /\ t_parent t = r /\ t_children_pos t = i /\
         child = length (heap st) /\
         data_slices !! i = Some tr /\
         t_local_data t = fst (fst tr) /\
         ws !! i = Some (snd tr)).
Proof.
  intros Hreach Hr.
  pose proof (reachable_invariant _ _ _ _ Hreach) as [_ Hpar _ Hsums].
  destruct (Hsums _ _ _ _ Hr) as (Hlen & d & Hws & Htasks).
  split; [exact Hlen|]. exists d. cbv zeta.
  assert (Hpending : forall t, t ∈ tasks st -> t_parent t = r ->
            exists tr,
              split_rows env d (ds_context env) s !! t_children_pos t = Some tr /\
              t_local_data t = fst (fst tr) /\
              ws !! t_children_pos t = Some (snd tr)).
  { intros t Ht Htr. destruct (Htasks t Ht Htr) as (tr & Hi & Hd & _).
    exists tr. split; [exact Hi|]. split; [exact Hd|].
    rewrite Hws, list_lookup_fmap, Hi. reflexivity. }
  split; [exact Hws|]. split; [exact Hpending|].
  intros st' i cs' child Hrun Hempty Hr' Hfilled.
  destruct (loop_body_inv _ _ _ _ Hrun) as (t & rest & op & p & Hq & _ & Hh).
  apply handle_inv in Hh.
  destruct (requeued env t op) as [t'|] eqn:Hreq.
  - subst st'. cbn [heap] in Hr'. rewrite Hr in Hr'. inversion Hr'; subst cs'.
    rewrite Hempty in Hfilled. discriminate.
  - destruct Hh as (o & cs0 & new_obj & new_tasks & Ho & Hcs0 & Hpos & Hb & ->).
    cbn [heap] in Hr'.
    destruct (lookup_after_fill _ _ _ _ _ _ _ _ _ Ho Hr')
      as [[Er Hx]|[(Hne & Hlt & Hx)|[Er Hx]]].
    + subst r. rewrite Hr in Ho. inversion Ho; subst o.
      cbn in Hcs0, Hx. inversion Hcs0; subst cs0. inversion Hx; subst cs'.
      destruct (decide (i = t_children_pos t)) as [->|Hi].
      * rewrite list_lookup_insert_eq in Hfilled by exact Hpos.
        inversion Hfilled; subst child.
        assert (Ht : t ∈ tasks st) by (rewrite Hq; left).
        destruct (Hpending t Ht eq_refl) as (tr & Htr & Hd & Hw).
        exists t, rest, tr. auto 10.
      * rewrite list_lookup_insert_ne in Hfilled by congruence.
        rewrite Hempty in Hfilled. discriminate.
    + rewrite Hr in Hx. inversion Hx; subst cs'.
      rewrite Hempty in Hfilled. discriminate.
    + subst r. apply lookup_lt_Some in Hr. lia.
Qed.
End BuilderFacts.

(** * The theorems at concrete inputs *)

Lemma ex_state_split_reachable :
  reachable ex_env_split 0 (initial_state ex_dataset [0; 1]) ex_state_split.
Proof.
  eapply reachable_iter; [apply reachable_start|]. vm_compute. reflexivity.
Qed.

(** The iteration that fills slot 0 of the Sum: it handles the task on
    [ex_lo], the row subset of the triple with proportion 0.3. *)
Example ex_state_split_step :
  loop_body ex_env_split 0 ex_state_split = Ret tt ex_state_child.
Proof. vm_compute. reflexivity. Qed.

Lemma policy_single_column_at_floor_witness :
  next_operation 100 (nd_index_cols ex_dataset [1]) [1] false true false true true
  = Ok (CREATE_LEAF, None).
Proof.
  apply policy_single_column_at_floor; [reflexivity|vm_compute; discriminate].
Defined.

Lemma policy_all_zero_variance_witness :
  next_operation 2 ex_constant [4; 9] false false true true false
  = Ok (NAIVE_FACTORIZATION, None).
Proof.
  apply policy_all_zero_variance; [simpl; lia|reflexivity|].
  intros j Hj. destruct j as [|[|j]]; [reflexivity|reflexivity|simpl in Hj; lia].
Defined.

Lemma policy_some_zero_variance_witness :
  exists positions,
    next_operation 2 ex_dataset3 [5; 7; 9] false false true true false
    = Ok (REMOVE_UNINFORMATIVE_FEATURES, Some positions)
    /\ (forall j, j ∈ positions <-> j < 3 /\ var_is_zero ex_dataset3 j = true)
    /\ StronglySorted lt positions.
Proof.
  apply (policy_some_zero_variance 2 ex_dataset3 [5; 7; 9]).
  - simpl. lia.
  - simpl. lia.
  - exists 0. split; [simpl; lia|reflexivity].
  - exists 1. split; [simpl; lia|reflexivity].
Defined.

Lemma single_triple_splitters_never_drain_witness :
  learn_structure ex_imports 25 (Some ex_dataset) (Some tt) (Some one_triple)
                  (Some one_triple) (Some ex_create_leaf)
                  (Some (get_next_operation 3)) None default_slicer
  = OutOfFuel (mkState [Product [] [None]]
                       [mkTask ex_dataset 0 0 [0; 1] true false]).
Proof.
  refine (single_triple_splitters_never_drain ex_imports 25 ex_dataset tt
            one_triple one_triple ex_create_leaf 3 None default_slicer _ _ _ _ _).
  - intros d c s. reflexivity.
  - intros d c s. reflexivity.
  - simpl. lia.
  - simpl. lia.
  - intros j Hj. destruct j as [|[|j]]; [reflexivity|reflexivity|simpl in Hj; lia].
Defined.

Lemma single_triple_requeue_witness :
  loop_body (ex_env_single 3) 0
    (mkState [Product [] [None]] [mkTask ex_dataset 0 0 [0; 1] false true])
  = Ret tt (mkState [Product [] [None]] [mkTask ex_dataset 0 0 [0; 1] true false])
  /\
  loop_body (ex_env_single 3) 0
    (mkState [Product [] [None]] [mkTask ex_dataset 0 0 [0; 1] true false])
  = Ret tt (mkState [Product [] [None]] [mkTask ex_dataset 0 0 [0; 1] false true]).
Proof.
  split.
  - apply (proj1 (single_triple_requeue (ex_env_single 3) 0 [Product [] [None]]
                    (mkTask ex_dataset 0 0 [0; 1] false true) [] None));
      [vm_compute; reflexivity|reflexivity].
  - apply (proj2 (single_triple_requeue (ex_env_single 3) 0 [Product [] [None]]
                    (mkTask ex_dataset 0 0 [0; 1] true false) [] None));
      [vm_compute; reflexivity|reflexivity].
Defined.

Lemma remove_uninformative_enqueues_witness :
  loop_body (ex_env_single 2) 0
    (mkState [Product [] [None]] [mkTask ex_dataset3 0 0 [5; 7; 9] false false])
  = Ret tt
      (mkState [Product [] [Some 1]; Product [5; 7; 9] [None; None]]
               [mkTask (mk_ndarray [[7]; [7]; [7]; [7]]%Z 1) 1 0 [5] true true;
                mkTask (mk_ndarray [[1; 4]; [2; 3]; [3; 9]; [4; 1]]%Z 2) 1 1 [1; 2]
                       false false]).
Proof.
  refine (remove_uninformative_enqueues (ex_env_single 2) 0 [Product [] [None]]
            (mkTask ex_dataset3 0 0 [5; 7; 9] false false) [] [0]
            (Product [] [None]) [None] _ _ _ _ _ _).
  - vm_compute. reflexivity.
  - apply NoDup_cons. split; [apply not_elem_of_nil|apply NoDup_nil_2].
  - intros c Hc. apply list_elem_of_singleton in Hc. subst c. simpl. lia.
  - reflexivity.
  - reflexivity.
  - simpl. lia.
Defined.

Lemma learn_structure_asserts_witness :
  learn_structure ex_imports 25 (Some ex_dataset) (Some tt) None
                  (Some one_triple) (Some ex_create_leaf)
                  (Some (get_next_operation 3)) None default_slicer
  = Failed AssertionError empty_state.
Proof.
  apply learn_structure_asserts. right. right. left. reflexivity.
Defined.

Lemma ex_split_drains :
  while_tasks (mkEnv tt split_3_7 one_triple ex_create_leaf (get_next_operation 7)
                     default_slicer)
              25 0
              (initial_state ex_dataset (default (seq 0 (shape1 ex_dataset)) None))
  = Finished tt ex_state_final.
Proof. vm_compute. reflexivity. Qed.

Lemma learn_structure_validates_witness :
  (learn_structure ex_imports 25 (Some ex_dataset) (Some tt) (Some split_3_7)
                   (Some one_triple) (Some ex_create_leaf)
                   (Some (get_next_operation 7)) None default_slicer
   = Finished (Some 1) ex_state_final
   /\ fst (is_valid ex_imports (heap ex_state_final) (Some 1)) = true)
  /\
  learn_structure ex_imports_invalid 25 (Some ex_dataset) (Some tt)
                  (Some split_3_7) (Some one_triple) (Some ex_create_leaf)
                  (Some (get_next_operation 7)) None default_slicer
  = Failed AssertionError ex_state_final.
Proof.
  split.
  - assert (Hcall : learn_structure ex_imports 25 (Some ex_dataset) (Some tt)
                      (Some split_3_7) (Some one_triple) (Some ex_create_leaf)
                      (Some (get_next_operation 7)) None default_slicer
                    = Finished (Some 1) ex_state_final)
      by (vm_compute; reflexivity).
    split; [exact Hcall|].
    pose proof (learn_structure_validates ex_imports 25 ex_dataset tt split_3_7
                  one_triple ex_create_leaf (get_next_operation 7) None
                  default_slicer) as Hthm.
    cbv zeta in Hthm. destruct Hthm as [_ Hvalid].
    apply (Hvalid (Some 1) ex_state_final). exact Hcall.
  - pose proof (learn_structure_validates ex_imports_invalid 25 ex_dataset tt
                  split_3_7 one_triple ex_create_leaf (get_next_operation 7)
                  None default_slicer) as Hthm.
    cbv zeta in Hthm. destruct Hthm as [Hdrained _].
    destruct (Hdrained ex_state_final ex_split_drains) as (child & _ & Hcall).
    rewrite Hcall. vm_compute. reflexivity.
Defined.

Lemma is_first_is_parent_is_root_witness :
  let env := ex_env_split in
  let st := ex_state_split in
  let t := mkTask ex_lo 1 0 [0; 1] false false in
  let rest := [mkTask ex_hi 1 1 [0; 1] false false] in
  loop_body env 0 st
  = bind (lift (next_operation 7 ex_lo [0; 1] false false false true false))
         (fun decision => handle env t (fst decision) (snd decision))
         (mkState (heap st) rest)
  /\
  (forall x, x ∈ tasks st -> is_first_arg 0 x = true ->
             t_parent x = 0 /\ seed_like ex_dataset [0; 1] x)
  /\
  (forall st', loop_body env 0 st = Ret tt st' ->
     exists new_tasks,
       tasks st' = rest ++ new_tasks /\
       ((exists t', new_tasks = [t'] /\
                    t_local_data t' = t_local_data t /\ t_parent t' = t_parent t /\
                    t_children_pos t' = t_children_pos t /\ t_scope t' = t_scope t /\
                    is_first_arg 0 t' = is_first_arg 0 t)
        \/ (forall x, x ∈ new_tasks -> is_first_arg 0 x = false))).
Proof.
  exact (is_first_is_parent_is_root ex_env_split 7 ex_dataset [0; 1] ex_state_split
           (mkTask ex_lo 1 0 [0; 1] false false)
           [mkTask ex_hi 1 1 [0; 1] false false]
           eq_refl ex_state_split_reachable eq_refl).
Defined.

Lemma sum_weights_follow_children_witness :
  let env := ex_env_split in
  let st := ex_state_split in
  let ws := [(3 # 10)%Q; (7 # 10)%Q] in
  length ws = length [@None nat; None] /\
  exists d,
    let data_slices := split_rows env d (ds_context env) [0; 1] in
    ws = (snd <$> data_slices) /\
    (forall t, t ∈ tasks st -> t_parent t = 1 ->
       exists tr,
         data_slices !! t_children_pos t = Some tr /\
         t_local_data t = fst (fst tr) /\
         ws !! t_children_pos t = Some (snd tr)) /\
    (forall st' i cs' child,
       loop_body env 0 st = Ret tt st' ->
       [@None nat; None] !! i = Some None ->
       heap st' !! 1 = Some (Sum [0; 1] cs' ws) ->
       cs' !! i = Some (Some child) ->
       exists t rest tr,
         tasks st = t :: rest /\ t_parent t = 1 /\ t_children_pos t = i /\
         child = length (heap st) /\
         data_slices !! i = Some tr /\
         t_local_data t = fst (fst tr) /\
         ws !! i = Some (snd tr)).
Proof.
  exact (sum_weights_follow_children ex_env_split ex_dataset [0; 1] ex_state_split
           1 [0; 1] [None; None] [(3 # 10)%Q; (7 # 10)%Q]
           ex_state_split_reachable eq_refl).
Defined.

(** * Further properties of the operation policy *)

Section PolicyDecisions.
Context {D : Type} `{NdArray D}.

Lemma zero_variance_positions_length (data : D) (k : nat) :
  length (zero_variance_positions data k) <= k.
Proof.
  unfold zero_variance_positions.
  etransitivity; [apply length_filter|]. rewrite length_seq. reflexivity.
Qed.

(** The variance branch of the policy on a slice narrower than the scope:
    the boolean index has the wrong length. *)
Lemma next_operation_narrow (m : Z) (data : D) (scope : Scope)
    (nc ni f cf cu : bool) :
  length scope <> 1 -> shape1 data < length scope ->
  next_operation m data scope nc ni f cf cu =
    let zs := zero_variance_positions data (shape1 data) in
    if 0 <? length zs then
      if length zs =? shape1 data then Ok (NAIVE_FACTORIZATION, None)
      else Raise IndexError
    else if (Z.of_nat (shape0 data) <=? m)%Z || (nc && ni)
    then Ok (NAIVE_FACTORIZATION, None)
    else if ni then Ok (SPLIT_ROWS, None)
    else if nc then Ok (SPLIT_COLUMNS, None)
    else if f then (if cf then Ok (SPLIT_ROWS, None) else Ok (SPLIT_COLUMNS, None))
    else Ok (SPLIT_COLUMNS, None).
Proof.
  intros Hlen Hcols. unfold next_operation.
  destruct (length scope =? 1) eqn:E; [apply Nat.eqb_eq in E; contradiction|].
  rewrite Nat.min_r by lia. rewrite np_sum_fmap. cbv zeta.
  unfold mask_select. rewrite length_fmap, !length_seq.
  destruct (shape1 data =? length scope) eqn:E'; [apply Nat.eqb_eq in E'; lia|].
  reflexivity.
Qed.

Lemma next_operation_Raise (m : Z) (data : D) (scope : Scope)
    (nc ni f cf cu : bool) (e : Exn) :
  next_operation m data scope nc ni f cf cu = Raise e ->
  e = IndexError /\ shape1 data < length scope /\ length scope <> 1.
Proof.
  intros He.
  destruct (decide (length scope = 1)) as [Hone|Hmany].
  - unfold next_operation in He. rewrite Hone in He. cbn [Nat.eqb] in He.
    policy_cases He; discriminate.
  - destruct (decide (length scope <= shape1 data)) as [Hwide|Hnarrow].
    + rewrite next_operation_several_columns in He by assumption. cbv zeta in He.
      policy_cases He; discriminate.
    + rewrite next_operation_narrow in He by lia. cbv zeta in He.
      policy_cases He; try discriminate.
      inversion He. repeat split; [lia|exact Hmany].
Qed.

(** The positions that come with REMOVE_UNINFORMATIVE_FEATURES are distinct
    positions of the scope. *)
Lemma next_operation_remove (m : Z) (data : D) (scope : Scope)
    (nc ni f cf cu : bool) (p : option (list nat)) :
  next_operation m data scope nc ni f cf cu
  = Ok (REMOVE_UNINFORMATIVE_FEATURES, p) ->
  exists cols, p = Some cols /\ NoDup cols /\ forall c, c ∈ cols -> c < length scope.
Proof.
  intros Hd.
  destruct (decide (length scope = 1)) as [Hone|Hmany].
  - unfold next_operation in Hd. rewrite Hone in Hd. cbn [Nat.eqb] in Hd.
    policy_cases Hd; discriminate.
  - destruct (decide (length scope <= shape1 data)) as [Hwide|Hnarrow].
    + rewrite next_operation_several_columns in Hd by assumption. cbv zeta in Hd.
      destruct (0 <? _); [|policy_cases Hd; discriminate].
      destruct (_ =? shape1 data); inversion Hd; subst.
      exists (zero_variance_positions data (length scope)).
      split; [reflexivity|]. split.
      * unfold zero_variance_positions. apply NoDup_filter, NoDup_seq.
      * intros c Hc. apply zero_variance_positions_spec in Hc. tauto.
    + rewrite next_operation_narrow in Hd by lia. cbv zeta in Hd.
      policy_cases Hd; discriminate.
Qed.

(** X1: The policy never raises on a slice with at least as many columns as the
    scope; the one exception it can raise is [IndexError], on a slice that is
    narrower than a scope of several columns. *)
Theorem policy_raises_only_on_narrow_slice (min_instances_slice : Z) (data : D)
    (scope : Scope)
    (no_clusters no_independencies is_first cluster_first cluster_univariate : bool) :
  let decision := next_operation min_instances_slice data scope no_clusters
                    no_independencies is_first cluster_first cluster_univariate in
  (length scope <= shape1 data -> exists op p, decision = Ok (op, p))
  /\
  (forall e, decision = Raise e ->
     e = IndexError /\ shape1 data < length scope /\ length scope <> 1).
Proof.
  intros decision. split.
  - intros Hwide. destruct decision as [[op p]|e] eqn:Hd; [eauto|].
    apply next_operation_Raise in Hd as (_ & Hnarrow & _). lia.
  - intros e. apply next_operation_Raise.
Qed.

(** X2: The auxiliary parameter is [None] for every operation but
    REMOVE_UNINFORMATIVE_FEATURES, and that operation comes with the list of
    the zero-variance positions of the scope, which is then neither empty nor
    as long as the slice is wide. *)
Theorem policy_parameter_only_for_remove (min_instances_slice : Z) (data : D)
    (scope : Scope)
    (no_clusters no_independencies is_first cluster_first cluster_univariate : bool)
    (op : Operation) (p : option (list nat)) :
  next_operation min_instances_slice data scope no_clusters no_independencies
                 is_first cluster_first cluster_univariate = Ok (op, p) ->
  match op with
  | REMOVE_UNINFORMATIVE_FEATURES =>
      let positions := zero_variance_positions data (length scope) in
      p = Some positions /\ positions <> [] /\ length positions <> shape1 data /\
      length scope <= shape1 data
  | _ => p = None
  end.
Proof.
  intros Hd.
  destruct (decide (length scope = 1)) as [Hone|Hmany].
  - unfold next_operation in Hd. rewrite Hone in Hd. cbn [Nat.eqb] in Hd.
    destruct (_ || _); [inversion Hd; reflexivity|].
    destruct cluster_univariate; inversion Hd; reflexivity.
  - destruct (decide (length scope <= shape1 data)) as [Hwide|Hnarrow].
    + rewrite next_operation_several_columns in Hd by assumption. cbv zeta in Hd.
      destruct (0 <? _) eqn:Hpos.
      * destruct (_ =? shape1 data) eqn:Hall; inversion Hd; subst; [reflexivity|].
        cbv zeta. apply Nat.ltb_lt in Hpos. apply Nat.eqb_neq in Hall.
        repeat split; try assumption.
        intros Hnil. rewrite Hnil in Hpos. simpl in Hpos. lia.
      * repeat (match type of Hd with
                | context [if ?b then _ else _] => destruct b
                end); inversion Hd; reflexivity.
    + rewrite next_operation_narrow in Hd by lia. cbv zeta in Hd.
      repeat (match type of Hd with
              | context [if ?b then _ else _] => destruct b
              end); try discriminate; inversion Hd; reflexivity.
Qed.


(** X4: A slice that is wider than the scope: when every column of the scope is
    constant the count of constant columns cannot reach the width of the
    slice, so the policy does not factorize; it asks to remove every position
    of the scope. *)
Theorem policy_wide_slice_all_constant (min_instances_slice : Z) (data : D)
    (scope : Scope)
    (no_clusters no_independencies is_first cluster_first cluster_univariate : bool) :
  1 < length scope ->
  length scope < shape1 data ->
  (forall j, j < length scope -> var_is_zero data j = true) ->
  next_operation min_instances_slice data scope no_clusters no_independencies
                 is_first cluster_first cluster_univariate
  = Ok (REMOVE_UNINFORMATIVE_FEATURES, Some (seq 0 (length scope))).
Proof.
  intros Hscope Hwide Hzero.
  rewrite next_operation_several_columns by lia. cbv zeta.
  unfold zero_variance_positions. rewrite filter_all.
  2:{ intros j Hj. apply elem_of_seq in Hj. apply Hzero. lia. }
  rewrite length_seq.
  destruct (0 <? length scope) eqn:E; [|apply Nat.ltb_ge in E; lia].
  destruct (length scope =? shape1 data) eqn:E'; [apply Nat.eqb_eq in E'; lia|].
  reflexivity.
Qed.

(** X5: A scope of several columns none of which is constant: the decision
    depends on the row count and the flags only.  NAIVE_FACTORIZATION at the
    floor or when both splits have failed; otherwise SPLIT_ROWS when the
    column split has failed, or on the first task when rows come first and
    nothing has failed; otherwise SPLIT_COLUMNS.  The univariate flag plays
    no part. *)
Theorem policy_without_constant_columns (min_instances_slice : Z) (data : D)
    (scope : Scope)
    (no_clusters no_independencies is_first cluster_first cluster_univariate : bool) :
  length scope <> 1 ->
  (forall j, j < length scope `min` shape1 data -> var_is_zero data j = false) ->
  next_operation min_instances_slice data scope no_clusters no_independencies
                 is_first cluster_first cluster_univariate
  = Ok (if (Z.of_nat (shape0 data) <=? min_instances_slice)%Z
           || (no_clusters && no_independencies)
        then NAIVE_FACTORIZATION
        else if no_independencies
                || (negb no_clusters && is_first && cluster_first)
        then SPLIT_ROWS
        else SPLIT_COLUMNS, None).
Proof.
  intros Hlen Hvar. unfold next_operation.
  destruct (length scope =? 1) eqn:E; [apply Nat.eqb_eq in E; contradiction|].
  rewrite np_sum_fmap, filter_none.
  2:{ intros j Hj. apply elem_of_seq in Hj. rewrite Hvar by lia. discriminate. }
  cbn [length Nat.ltb Nat.leb].
  destruct (Z.of_nat (shape0 data) <=? min_instances_slice)%Z;
    destruct no_clusters, no_independencies, is_first, cluster_first; reflexivity.
Qed.
End PolicyDecisions.

(** * The shape of the heap *)

Section TreeShapeFacts.
Context {D : Type} `{NdArray D} {Ctx L W : Type}.

Local Abbreviation state := (State D L W).
Local Abbreviation obj := (Obj L W).
Local Abbreviation env_t := (Env D Ctx L W).

Lemma obj_children_set (o : obj) (cs cs' : list (option nat)) :
  obj_children o = Ok cs -> obj_children (obj_set_children o cs') = Ok cs'.
Proof. destruct o; cbn; intros Ho; congruence. Qed.

Lemma slot_lt (h : Heap L W) (r i : nat) (v : option nat) :
  slot h r i = Some v -> r < length h.
Proof.
  unfold slot. destruct (h !! r) eqn:Hr; [|discriminate].
  intros _. eapply lookup_lt_Some. exact Hr.
Qed.

(** The slots of the heap after an iteration that created a node. *)
Lemma slot_after_fill (h : Heap L W) (parent pos node : nat) (o new_obj : obj)
    (cs : list (option nat)) (r i : nat) :
  h !! parent = Some o -> obj_children o = Ok cs -> pos < length cs ->
  slot (fill_slot h parent pos node o cs ++ [new_obj]) r i
  = if decide (r = length h) then
      match obj_children new_obj with
      | Ok cs' => cs' !! i
      | Raise _ => None
      end
    else if decide ((r, i) = (parent, pos)) then Some (Some node)
    else slot h r i.
Proof.
  intros Ho Hcs Hpos. pose proof (lookup_lt_Some _ _ _ Ho) as Hlt.
  unfold slot, fill_slot.
  destruct (decide (r = length h)) as [->|Hr].
  - rewrite (lookup_snoc_at _ _ _ (length_insert _ _ _)). reflexivity.
  - destruct (decide (r < length h)) as [Hr'|Hr'].
    + rewrite lookup_app_l by (rewrite length_insert; exact Hr').
      destruct (decide (r = parent)) as [->|Hne].
      * rewrite list_lookup_insert_eq by exact Hlt.
        rewrite (obj_children_set _ _ _ Hcs), Ho, Hcs.
        destruct (decide (i = pos)) as [->|Hi].
        -- rewrite list_lookup_insert_eq by exact Hpos.
           rewrite decide_True by reflexivity. reflexivity.
        -- rewrite list_lookup_insert_ne by congruence.
           rewrite decide_False by congruence. reflexivity.
      * rewrite list_lookup_insert_ne by congruence.
        rewrite decide_False by congruence. reflexivity.
    + rewrite !lookup_ge_None_2; [|lia|rewrite length_app, length_insert; simpl; lia].
      destruct (decide ((r, i) = (parent, pos))) as [E|E]; [|reflexivity].
      inversion E; subst. lia.
Qed.

(** The tasks that a node-creating iteration appends fill the slots of the
    new object, one task per slot in order, and those slots are all
    placeholders; a leaf has no slots and no tasks. *)
Lemma built_slots (env : env_t) (t : Task D) (node : nat) (op : Operation)
    (p : option (list nat)) (o : obj) (ts : list (Task D)) :
  built env t node op p = Some (o, ts) ->
  (task_slot <$> ts) = ((fun i => (node, i)) <$> seq 0 (length ts)) /\
  match obj_children o with
  | Ok cs' => cs' = replicate (length ts) None
  | Raise _ => ts = []
  end.
Proof.
  intros Hb.
  destruct op; cbv beta zeta iota delta [built] in Hb.
  - inversion Hb; subst. split; reflexivity.
  - inversion Hb; subst. unfold col_tasks. rewrite fmap_imap, length_imap.
    split; [|reflexivity]. unfold compose, task_slot. cbn.
    apply (imap_seq_0 _ (fun i => (node, i))).
  - inversion Hb; subst. unfold row_tasks. rewrite fmap_imap, length_imap.
    split; [|reflexivity]. unfold compose, task_slot. cbn.
    apply (imap_seq_0 _ (fun i => (node, i))).
  - inversion Hb; subst. unfold column_tasks.
    rewrite fmap_imap, length_imap, length_seq.
    split; [|reflexivity]. unfold compose, task_slot. cbn.
    rewrite (imap_seq_0 _ (fun i => (node, i))), length_seq. reflexivity.
  - destruct p as [cols|]; [|discriminate]. inversion Hb; subst.
    rewrite fmap_app, length_app. unfold column_tasks.
    rewrite fmap_imap, length_imap. cbn [length fmap list_fmap].
    replace (length cols + 1) with (S (length cols)) by lia.
    split; [|reflexivity]. rewrite seq_S, fmap_app. f_equal.
    unfold compose, task_slot. cbn.
    apply (imap_seq_0 _ (fun i => (node, i))).
Qed.

Lemma initial_state_tree (dataset : D) (initial_scope : Scope) :
  tree_invariant (@initial_state D L W dataset initial_scope).
Proof.
  constructor; cbn [initial_state heap tasks].
  - intros t Ht. apply list_elem_of_singleton in Ht as ->. reflexivity.
  - cbn. apply NoDup_singleton.
  - intros r i Hs. eexists. split; [left|].
    destruct r as [|[|r]]; destruct i as [|i]; cbn in Hs; try discriminate.
    reflexivity.
  - intros r i c Hs.
    destruct r as [|[|r]]; destruct i as [|i]; cbn in Hs; discriminate.
  - intros r i r' i' c Hs.
    destruct r as [|[|r]]; destruct i as [|i]; cbn in Hs; discriminate.
Qed.

(** An iteration that puts the task back keeps the shape. *)
Lemma tree_requeue (env : env_t) (h : Heap L W) (t t' : Task D)
    (rest : list (Task D)) (op : Operation) :
  tree_invariant (mkState h (t :: rest)) ->
  requeued env t op = Some t' ->
  tree_invariant (mkState h (rest ++ [t'])).
Proof.
  intros [Hpend Hdist Hawait Hfwd Hshare] Hreq. cbn [heap tasks] in *.
  destruct (requeued_same _ _ _ _ Hreq) as (_ & Hp & Hc & _).
  assert (Hslot : task_slot t' = task_slot t) by (unfold task_slot; congruence).
  constructor; cbn [heap tasks]; try assumption.
  - intros x Hx. apply elem_of_app in Hx as [Hx|Hx].
    + apply Hpend. right. exact Hx.
    + apply list_elem_of_singleton in Hx as ->. rewrite Hp, Hc. apply Hpend. left.
  - rewrite fmap_app. cbn [fmap list_fmap]. rewrite Hslot.
    rewrite fmap_cons in Hdist. apply NoDup_cons in Hdist as [Hnotin Hnd].
    apply NoDup_app. split; [exact Hnd|]. split; [|apply NoDup_singleton].
    intros s Hs Hs'. apply list_elem_of_singleton in Hs'. subst s. contradiction.
  - intros r i Hs. destruct (Hawait r i Hs) as (x & Hx & Hxs).
    apply elem_of_cons in Hx as [->|Hx].
    + exists t'. split; [apply elem_of_app; right; left|congruence].
    + exists x. split; [apply elem_of_app; left; exact Hx|exact Hxs].
Qed.

(** An iteration that creates a node keeps the shape. *)
Lemma tree_node (env : env_t) (h : Heap L W) (t : Task D) (rest : list (Task D))
    (op : Operation) (p : option (list nat)) (o new_obj : obj)
    (cs : list (option nat)) (new_tasks : list (Task D)) :
  tree_invariant (mkState h (t :: rest)) ->
  h !! t_parent t = Some o -> obj_children o = Ok cs ->
  t_children_pos t < length cs ->
  built env t (length h) op p = Some (new_obj, new_tasks) ->
  tree_invariant
    (mkState (fill_slot h (t_parent t) (t_children_pos t) (length h) o cs ++ [new_obj])
             (rest ++ new_tasks)).
Proof.
  intros [Hpend Hdist Hawait Hfwd Hshare] Ho Hcs Hpos Hb. cbn [heap tasks] in *.
  destruct (built_slots _ _ _ _ _ _ _ Hb) as [Hslots Hnew].
  pose proof (lookup_lt_Some _ _ _ Ho) as Hlt.
  rewrite fmap_cons in Hdist. apply NoDup_cons in Hdist as [Hnotin Hnd].
  assert (Hrest : forall x, x ∈ rest ->
            task_slot x <> task_slot t /\ t_parent x < length h).
  { intros x Hx. split.
    - intros E. apply Hnotin. rewrite <- E. apply list_elem_of_fmap_2. exact Hx.
    - eapply slot_lt. apply Hpend. right. exact Hx. }
  assert (Hnew_slot : forall x, x ∈ new_tasks ->
            exists i, task_slot x = (length h, i) /\ i < length new_tasks).
  { intros x Hx. apply (list_elem_of_fmap_2 task_slot) in Hx.
    rewrite Hslots in Hx. apply list_elem_of_fmap in Hx as (i & Hi & Hin).
    apply elem_of_seq in Hin. exists i. split; [exact Hi|lia]. }
  assert (Hnew_obj : forall i v,
            match obj_children new_obj with
            | Ok cs' => cs' !! i
            | Raise _ => None
            end = Some v -> v = None /\ i < length new_tasks).
  { intros i v Hv. destruct (obj_children new_obj) as [cs'|e]; [|discriminate].
    subst cs'. apply lookup_replicate in Hv as [-> Hi]. auto. }
  assert (Hlen : length (fill_slot h (t_parent t) (t_children_pos t) (length h) o cs
                         ++ [new_obj]) = S (length h)).
  { rewrite length_app. unfold fill_slot. rewrite length_insert. simpl. lia. }
  constructor; cbn [heap tasks].
  - intros x Hx. rewrite (slot_after_fill _ _ _ _ _ _ _ _ _ Ho Hcs Hpos).
    apply elem_of_app in Hx as [Hx|Hx].
    + destruct (Hrest x Hx) as [Hne Hpx].
      rewrite decide_False by lia. rewrite decide_False by exact Hne.
      apply Hpend. right. exact Hx.
    + destruct (Hnew_slot x Hx) as (i & Hi & Hlt_i).
      unfold task_slot in Hi. inversion Hi as [[Hpx Hix]].
      rewrite decide_True by reflexivity.
      destruct (obj_children new_obj) as [cs'|e].
      * subst cs'. apply lookup_replicate_2. lia.
      * subst new_tasks. simpl in Hlt_i. lia.
  - rewrite fmap_app. apply NoDup_app. split; [exact Hnd|]. split.
    + intros s Hs Hs'. apply list_elem_of_fmap in Hs as (x & -> & Hx).
      apply list_elem_of_fmap in Hs' as (y & Hxy & Hy).
      destruct (Hrest x Hx) as [_ Hpx].
      destruct (Hnew_slot y Hy) as (i & Hi & _).
      rewrite Hi in Hxy. unfold task_slot in Hxy. inversion Hxy. lia.
    + rewrite Hslots. apply NoDup_fmap_2; [|apply NoDup_seq].
      intros a b E. inversion E. reflexivity.
  - intros r i Hs. rewrite (slot_after_fill _ _ _ _ _ _ _ _ _ Ho Hcs Hpos) in Hs.
    destruct (decide (r = length h)) as [->|Hr].
    + destruct (Hnew_obj i None Hs) as [_ Hi].
      assert (Hin : (length h, i) ∈ task_slot <$> new_tasks).
      { rewrite Hslots. apply (list_elem_of_fmap_2 (fun i => (length h, i))).
        apply elem_of_seq. lia. }
      apply list_elem_of_fmap in Hin as (x & Hx & Hxin).
      exists x. split; [apply elem_of_app; right; exact Hxin|congruence].
    + destruct (decide ((r, i) = (t_parent t, t_children_pos t))) as [E|E];
        [discriminate|].
      destruct (Hawait r i Hs) as (x & Hx & Hxs).
      apply elem_of_cons in Hx as [->|Hx];
        [exfalso; apply E; symmetry; exact Hxs|].
      exists x. split; [apply elem_of_app; left; exact Hx|exact Hxs].
  - intros r i c Hs. rewrite Hlen.
    rewrite (slot_after_fill _ _ _ _ _ _ _ _ _ Ho Hcs Hpos) in Hs.
    destruct (decide (r = length h)) as [->|Hr].
    + destruct (Hnew_obj i (Some c) Hs) as [E _]. discriminate.
    + destruct (decide ((r, i) = (t_parent t, t_children_pos t))) as [E|E].
      * inversion Hs; subst c. inversion E; subst. lia.
      * pose proof (Hfwd r i c Hs). lia.
  - intros r i r' i' c Hs Hs'.
    rewrite (slot_after_fill _ _ _ _ _ _ _ _ _ Ho Hcs Hpos) in Hs.
    rewrite (slot_after_fill _ _ _ _ _ _ _ _ _ Ho Hcs Hpos) in Hs'.
    destruct (decide (r = length h)) as [->|Hr];
      [destruct (Hnew_obj i (Some c) Hs) as [E _]; discriminate|].
    destruct (decide (r' = length h)) as [->|Hr'];
      [destruct (Hnew_obj i' (Some c) Hs') as [E _]; discriminate|].
    destruct (decide ((r, i) = (t_parent t, t_children_pos t))) as [E|E];
      destruct (decide ((r', i') = (t_parent t, t_children_pos t))) as [E'|E'].
    + congruence.
    + inversion Hs; subst c. pose proof (Hfwd r' i' _ Hs'). lia.
    + inversion Hs'; subst c. pose proof (Hfwd r i _ Hs). lia.
    + eapply Hshare; eauto.
Qed.

Lemma loop_body_tree (env : env_t) (root : nat) (st st' : state) :
  tree_invariant st ->
  loop_body env root st = Ret tt st' ->
  tree_invariant st'.
Proof.
  intros Hinv Hrun.
  destruct (loop_body_inv _ _ _ _ Hrun) as (t & rest & op & p & Hq & _ & Hh).
  destruct st as [h q]. cbn [heap tasks] in *. subst q.
  apply handle_inv in Hh.
  destruct (requeued env t op) as [t'|] eqn:Hreq.
  - subst st'. eapply tree_requeue; eauto.
  - destruct Hh as (o & cs & new_obj & new_tasks & Ho & Hcs & Hpos & Hb & ->).
    eapply tree_node; eauto.
Qed.

Lemma reachable_tree (env : env_t) (dataset : D) (initial_scope : Scope)
    (st : state) :
  reachable env 0 (initial_state dataset initial_scope) st ->
  tree_invariant st.
Proof.
  induction 1 as [|st st' _ IH Hrun].
  - apply initial_state_tree.
  - eapply loop_body_tree; eauto.
Qed.
(** X6: In every state the loop passes through, the pending tasks and the
    placeholders match one to one: the slot of every pending task exists and
    still holds the placeholder, no two pending tasks have the same slot, and
    every placeholder of the heap is the slot of a pending task. *)
Theorem pending_tasks_match_placeholders (env : env_t) (dataset : D)
    (initial_scope : Scope) (st : state) :
  reachable env 0 (initial_state dataset initial_scope) st ->
  (forall t, t ∈ tasks st ->
     slot (heap st) (t_parent t) (t_children_pos t) = Some None)
  /\ NoDup (task_slot <$> tasks st)
  /\ (forall r i, slot (heap st) r i = Some None ->
        exists t, t ∈ tasks st /\ task_slot t = (r, i)).
Proof.
  intros Hreach. destruct (reachable_tree _ _ _ _ Hreach). auto.
Qed.

(** X7: In every state the loop passes through, the child addresses make the
    heap a forest: a child was allocated after its parent (so there is no
    cycle and the root wrapper is nobody's child), it is an allocated object,
    and no object is the child of two slots. *)
Theorem heap_is_a_forest (env : env_t) (dataset : D) (initial_scope : Scope)
    (st : state) :
  reachable env 0 (initial_state dataset initial_scope) st ->
  (forall r i c, slot (heap st) r i = Some (Some c) ->
     r < c /\ is_Some (heap st !! c))
  /\ (forall r i r' i' c,
        slot (heap st) r i = Some (Some c) ->
        slot (heap st) r' i' = Some (Some c) ->
        r = r' /\ i = i').
Proof.
  intros Hreach. destruct (reachable_tree _ _ _ _ Hreach) as [_ _ _ Hfwd Hshare].
  split.
  - intros r i c Hs. destruct (Hfwd r i c Hs) as [Hrc Hc].
    split; [exact Hrc|]. apply lookup_lt_is_Some_2. exact Hc.
  - intros r i r' i' c Hs Hs'. pose proof (Hshare _ _ _ _ _ Hs Hs') as E.
    inversion E. auto.
Qed.

(** X8: When the loop has drained, the tree is complete: no child slot of the
    heap is a placeholder any more; every slot holds the address of an
    object allocated after its parent. *)
Theorem drained_tree_complete (env : env_t) (dataset : D)
    (initial_scope : Scope) (fuel : nat) (st : state) :
  while_tasks env fuel 0 (initial_state dataset initial_scope) = Finished tt st ->
  forall r i v, slot (heap st) r i = Some v ->
    exists c, v = Some c /\ r < c /\ is_Some (heap st !! c).
Proof.
  intros Hrun r i v Hs.
  destruct (while_tasks_finished _ _ _ _ _ _ (reachable_start _ _ _) Hrun)
    as [Hreach Hq].
  destruct (reachable_tree _ _ _ _ Hreach) as [_ _ Hawait Hfwd _].
  destruct v as [c|].
  - exists c. destruct (Hfwd r i c Hs) as [Hrc Hc].
    split; [reflexivity|]. split; [exact Hrc|]. apply lookup_lt_is_Some_2. exact Hc.
  - destruct (Hawait r i Hs) as (t & Ht & _). rewrite Hq in Ht. inversion Ht.
Qed.

Lemma obj_set_children_twice (o : obj) (cs cs' : list (option nat)) :
  obj_set_children (obj_set_children o cs) cs' = obj_set_children o cs'.
Proof. destruct o; reflexivity. Qed.

(** X9: What one iteration changes.  The slot of the task it handles still held
    the placeholder.  Either the heap is left as it was and a task for the
    same slot is appended; or exactly one object is allocated, at the next
    free address, that address is written into the slot, every other slot of
    the older objects is unchanged, and every older object keeps its kind,
    scope, weights or leaf. *)
Theorem iteration_fills_one_placeholder (env : env_t) (dataset : D)
    (initial_scope : Scope) (st st' : state) (t : Task D) (rest : list (Task D)) :
  reachable env 0 (initial_state dataset initial_scope) st ->
  tasks st = t :: rest ->
  loop_body env 0 st = Ret tt st' ->
  slot (heap st) (t_parent t) (t_children_pos t) = Some None
  /\
  ((heap st' = heap st /\
    exists t', tasks st' = rest ++ [t'] /\ task_slot t' = task_slot t)
   \/
   (length (heap st') = S (length (heap st)) /\
    (exists new_tasks, tasks st' = rest ++ new_tasks) /\
    (forall r i, r < length (heap st) ->
       slot (heap st') r i
       = if decide ((r, i) = task_slot t) then Some (Some (length (heap st)))
         else slot (heap st) r i) /\
    (forall r o, heap st !! r = Some o ->
       exists o', heap st' !! r = Some o' /\
                  obj_set_children o' [] = obj_set_children o []))).
Proof.
  intros Hreach Hq Hrun.
  destruct (reachable_tree _ _ _ _ Hreach) as [Hpend _ _ _ _].
  split; [apply Hpend; rewrite Hq; left|].
  destruct (loop_body_inv _ _ _ _ Hrun) as (t0 & rest0 & op & p & Hq0 & _ & Hh).
  rewrite Hq in Hq0. inversion Hq0; subst t0 rest0.
  apply handle_inv in Hh.
  destruct (requeued env t op) as [t'|] eqn:Hreq.
  - left. subst st'. split; [reflexivity|]. exists t'. split; [reflexivity|].
    destruct (requeued_same _ _ _ _ Hreq) as (_ & Hp & Hc & _).
    unfold task_slot. congruence.
  - right. destruct Hh as (o & cs & new_obj & new_tasks & Ho & Hcs & Hpos & Hb & ->).
    pose proof (lookup_lt_Some _ _ _ Ho) as Hlt.
    cbn [heap tasks]. split; [|split; [|split]].
    + rewrite length_app. unfold fill_slot. rewrite length_insert. simpl. lia.
    + exists new_tasks. reflexivity.
    + intros r i Hr. rewrite (slot_after_fill _ _ _ _ _ _ _ _ _ Ho Hcs Hpos).
      rewrite decide_False by lia. reflexivity.
    + intros r o1 Hr. pose proof (lookup_lt_Some _ _ _ Hr) as Hr'.
      unfold fill_slot. rewrite lookup_app_l by (rewrite length_insert; exact Hr').
      destruct (decide (r = t_parent t)) as [->|Hne].
      * rewrite list_lookup_insert_eq by exact Hlt. eexists. split; [reflexivity|].
        rewrite Hr in Ho. inversion Ho; subst. apply obj_set_children_twice.
      * rewrite list_lookup_insert_ne by congruence. exists o1. auto.
Qed.
End TreeShapeFacts.

(** * Iterations that return, iterations that raise *)

Section Iterations.
Context {D : Type} `{NdArray D} {Ctx L W : Type}.

Local Abbreviation state := (State D L W).
Local Abbreviation obj := (Obj L W).
Local Abbreviation env_t := (Env D Ctx L W).



(** ** The node-creating branches in closed form *)

(** X11: SPLIT_ROWS with a number of triples other than one (none included): a
    Sum over the scope of the task is allocated and written into the slot of
    the parent; it has one placeholder and one weight per triple, the
    weights being the proportions in order; one task per triple is appended,
    on the row subset of the triple, with the scope of the task itself (the
    scope of the triple is ignored) and both flags reset. *)
Theorem split_rows_builds_sum (env : env_t) (root : nat) (h : Heap L W)
    (t : Task D) (rest : list (Task D)) (p : option (list nat)) (o : obj)
    (cs : list (option nat)) :
  let data_slices := split_rows env (t_local_data t) (ds_context env) (t_scope t) in
  call_policy (policy env) (t_local_data t) (t_scope t) (t_no_clusters t)
              (t_no_independencies t) (is_first_arg root t) = Ok (SPLIT_ROWS, p) ->
  length data_slices <> 1 ->
  h !! t_parent t = Some o -> obj_children o = Ok cs -> t_children_pos t < length cs ->
  loop_body env root (mkState h (t :: rest))
  = Ret tt
      (mkState
         (fill_slot h (t_parent t) (t_children_pos t) (length h) o cs
          ++ [Sum (t_scope t) (replicate (length data_slices) None)
                  (snd <$> data_slices)])
         (rest ++ imap (fun i tr => mkTask (fst (fst tr)) (length h) i (t_scope t)
                                           false false) data_slices)).
Proof.
  intros data_slices Hpol Hmany Ho Hcs Hpos.
  rewrite (loop_body_eq _ _ _ _ _ _ _ Hpol).
  rewrite (handle_rows_node _ _ _ _ _ _ _ Hmany Ho Hcs Hpos). reflexivity.
Qed.

(** X12: SPLIT_COLUMNS with a number of triples other than one: a Product over
    the scope of the task, with one placeholder per triple; one task per
    triple is appended, on the column subset of the triple and with the scope
    that the triple brings, both flags reset. *)
Theorem split_cols_builds_product (env : env_t) (root : nat) (h : Heap L W)
    (t : Task D) (rest : list (Task D)) (p : option (list nat)) (o : obj)
    (cs : list (option nat)) :
  let data_slices := split_cols env (t_local_data t) (ds_context env) (t_scope t) in
  call_policy (policy env) (t_local_data t) (t_scope t) (t_no_clusters t)
              (t_no_independencies t) (is_first_arg root t) = Ok (SPLIT_COLUMNS, p) ->
  length data_slices <> 1 ->
  h !! t_parent t = Some o -> obj_children o = Ok cs -> t_children_pos t < length cs ->
  loop_body env root (mkState h (t :: rest))
  = Ret tt
      (mkState
         (fill_slot h (t_parent t) (t_children_pos t) (length h) o cs
          ++ [Product (t_scope t) (replicate (length data_slices) None)])
         (rest ++ imap (fun i tr => mkTask (fst (fst tr)) (length h) i
                                           (snd (fst tr)) false false) data_slices)).
Proof.
  intros data_slices Hpol Hmany Ho Hcs Hpos.
  rewrite (loop_body_eq _ _ _ _ _ _ _ Hpol).
  rewrite (handle_cols_node _ _ _ _ _ _ _ Hmany Ho Hcs Hpos). reflexivity.
Qed.


(** X14: CREATE_LEAF: the leaf that [create_leaf] returns for the slice, the
    context and the scope of the task is written into the slot of the
    parent; no task is appended. *)
Theorem create_leaf_fills_slot (env : env_t) (root : nat) (h : Heap L W)
    (t : Task D) (rest : list (Task D)) (p : option (list nat)) (o : obj)
    (cs : list (option nat)) :
  call_policy (policy env) (t_local_data t) (t_scope t) (t_no_clusters t)
              (t_no_independencies t) (is_first_arg root t) = Ok (CREATE_LEAF, p) ->
  h !! t_parent t = Some o -> obj_children o = Ok cs -> t_children_pos t < length cs ->
  loop_body env root (mkState h (t :: rest))
  = Ret tt
      (mkState
         (fill_slot h (t_parent t) (t_children_pos t) (length h) o cs
          ++ [Leaf (create_leaf env (t_local_data t) (ds_context env) (t_scope t))])
         rest).
Proof.
  intros Hpol Ho Hcs Hpos.
  rewrite (loop_body_eq _ _ _ _ _ _ _ Hpol).
  apply handle_leaf; assumption.
Qed.

(** ** REMOVE_UNINFORMATIVE_FEATURES with a list it cannot use *)


End Iterations.

(** * Calls that end after one node *)

Section LeafRunFacts.
Context {D : Type} `{NdArray D} {Ctx L W : Type}.

Local Abbreviation state := (State D L W).
Local Abbreviation obj := (Obj L W).
Local Abbreviation env_t := (Env D Ctx L W).

Lemma while_tasks_step (env : env_t) (root : nat) (fuel : nat) (st st' : state) :
  tasks st <> [] ->
  loop_body env root st = Ret tt st' ->
  while_tasks env (S fuel) root st = while_tasks env fuel root st'.
Proof.
  intros Hq Hrun. cbn [while_tasks]. destruct (tasks st); [contradiction|].
  rewrite Hrun. reflexivity.
Qed.

(** More fuel does not change the result of a loop that has drained. *)
Lemma while_tasks_more_fuel (env : env_t) (root : nat) (fuel k : nat) :
  forall st st',
    while_tasks env fuel root st = Finished tt st' ->
    while_tasks env (fuel + k) root st = Finished tt st'.
Proof.
  induction fuel as [|fuel IH]; intros st st' Hrun.
  - cbn [while_tasks] in Hrun. destruct (tasks st) eqn:Hq; [|discriminate].
    destruct k; cbn [Nat.add while_tasks]; rewrite Hq; exact Hrun.
  - cbn [Nat.add while_tasks] in *. destruct (tasks st); [exact Hrun|].
    destruct (loop_body env root st) as [[] st1|e st1]; [|discriminate].
    apply IH. exact Hrun.
Qed.

(** A task on one column with the no-clusters flag set becomes a leaf. *)
Lemma leaf_policy (env : env_t) (m : Z) (d : D) (ident : nat) (ni f : bool) :
  policy env = get_next_operation m ->
  call_policy (policy env) d [ident] true ni f = Ok (CREATE_LEAF, None).
Proof.
  intros ->. unfold call_policy, get_next_operation, next_operation. cbn.
  rewrite orb_true_r. reflexivity.
Qed.

(** A deque of single-column tasks for the open slots of one Product drains
    in as many iterations as it has tasks: each becomes a leaf, allocated in
    order at the end of the heap and written into its slot. *)
Lemma leaf_tasks_drain (env : env_t) (m : Z) (root node : nat) (s : Scope) :
  policy env = get_next_operation m ->
  forall (items : list (D * nat)) (h : Heap L W) (pre : list (option nat)),
    h !! node = Some (Product s (pre ++ replicate (length items) None)) ->
    while_tasks env (length items) root
                (mkState h (leaf_tasks node (length pre) items))
    = Finished tt
        (mkState (<[node := Product s (pre ++ (Some <$> seq (length h) (length items)))]> h
                  ++ leaves env items) []).
Proof.
  intros Hpol. induction items as [|x items IH]; intros h pre Hnode.
  - cbn. rewrite app_nil_r, list_insert_id; [reflexivity|].
    cbn in Hnode. exact Hnode.
  - pose proof (lookup_lt_Some _ _ _ Hnode) as Hlt.
    unfold leaf_tasks. rewrite imap_cons. cbn [length].
    erewrite while_tasks_step; [|discriminate|].
    2:{ rewrite (loop_body_eq _ _ _ _ _ CREATE_LEAF None)
          by (cbn [t_local_data t_scope t_no_clusters t_no_independencies];
              apply (leaf_policy _ m); exact Hpol).
        refine (handle_leaf env (mkTask (fst x) node (length pre + 0) [snd x] true true)
                            None h _ _ _ Hnode eq_refl _).
        cbn. rewrite length_app. cbn. lia. }
    cbn [t_parent t_children_pos t_local_data t_scope].
    unfold fill_slot. cbn [obj_set_children].
    cbn [length replicate]. rewrite insert_app_r. cbn [insert list_insert].
    rewrite (cons_middle (Some (length h))), app_assoc.
    rewrite (imap_ext _ (fun i y => mkTask (fst y) node (length (pre ++ [Some (length h)]) + i)
                                           [snd y] true true)).
    2:{ intros i y _. unfold compose. rewrite length_app. cbn. f_equal. lia. }
    change (imap _ items) with (leaf_tasks node (length (pre ++ [Some (length h)])) items).
    rewrite IH.
    2:{ rewrite lookup_app_l by (rewrite length_insert; exact Hlt).
        apply list_lookup_insert_eq. exact Hlt. }
    rewrite length_app, length_insert. cbn [length].
    rewrite insert_snoc_lt by (rewrite length_insert; exact Hlt).
    rewrite list_insert_insert_eq.
    rewrite <- !app_assoc. cbn [leaves fmap list_fmap app seq].
    replace (length h + 1) with (S (length h)) by lia. reflexivity.
Qed.

(** The tasks of the column loops are single-column tasks. *)
Lemma column_tasks_leaf_tasks (env : env_t) (node base : nat) (d : D) (scope : Scope)
    (cols : list nat) :
  column_tasks env node base d scope cols
  = leaf_tasks node base (column_item env d scope <$> cols).
Proof. unfold column_tasks, leaf_tasks. rewrite imap_fmap. reflexivity. Qed.



(** X17: A call on a scope of one column makes one leaf of the whole dataset:
    the policy answers CREATE_LEAF whatever the number of rows, since the
    builder never switches univariate clustering on, and the loop ends after
    its first iteration.  No splitter and no slicer is called. *)
Theorem single_column_is_one_leaf (imp : Imports L W) (fuel : nat)
    (dataset : D) (ctx : Ctx) (sr sc : Splitter D Ctx W)
    (cl : D -> Ctx -> Scope -> L) (m : Z) (initial_scope : option Scope)
    (slicer : D -> list nat -> D) :
  let scope := default (seq 0 (shape1 dataset)) initial_scope in
  length scope = 1 ->
  0 < fuel ->
  learn_structure imp fuel (Some dataset) (Some ctx) (Some sr) (Some sc) (Some cl)
                  (Some (get_next_operation m)) initial_scope slicer
  = post_processed imp [Product [] [Some 1]; Leaf (cl dataset ctx scope)] (Some 1).
Proof.
  intros scope Hone Hfuel. unfold learn_structure.
  change (match initial_scope with Some s => s | None => seq 0 (shape1 dataset) end)
    with scope.
  cbv zeta. rewrite setup_eq.
  set (env := mkEnv ctx sr sc cl (get_next_operation m) slicer).
  assert (Hd : call_policy (policy env) dataset scope false false true
               = Ok (CREATE_LEAF, None)).
  { unfold call_policy, env. cbn [policy get_next_operation policy_body
      default_cluster_first default_cluster_univariate].
    unfold next_operation. rewrite Hone. cbn [Nat.eqb].
    destruct (_ || _); reflexivity. }
  assert (Hloop : while_tasks env 1 0 (initial_state dataset scope)
                  = Finished tt (mkState [Product [] [Some 1];
                                          Leaf (cl dataset ctx scope)] [])).
  { unfold initial_state. erewrite while_tasks_step; [|discriminate|].
    2:{ rewrite (loop_body_eq _ _ _ _ _ CREATE_LEAF None) by exact Hd.
        refine (handle_leaf env (mkTask dataset 0 0 scope false false) None
                            [Product [] [None]] [] (Product [] [None]) [None]
                            eq_refl eq_refl _).
        cbn. lia. }
    reflexivity. }
  replace fuel with (1 + (fuel - 1)) by lia.
  rewrite (while_tasks_more_fuel env 0 _ _ _ _ Hloop).
  rewrite (post_processing_eq imp _ _ (Some 1)) by reflexivity.
  unfold post_processed. cbv zeta.
  destruct (fst (is_valid imp _ _)); reflexivity.
Qed.

(** The loop on a seed task that is answered with
    REMOVE_UNINFORMATIVE_FEATURES when one column is left over. *)
Lemma remove_root_drains (env : env_t) (m : Z) (dataset : D) (scope : Scope)
    (cols : list nat) (b : nat) :
  policy env = get_next_operation m ->
  next_operation m dataset scope false false true true false
    = Ok (REMOVE_UNINFORMATIVE_FEATURES, Some cols) ->
  rest_positions scope cols = [b] ->
  while_tasks env (S (S (length cols))) 0 (initial_state dataset scope)
  = Finished tt
      (mkState (flat_heap env scope
                  ((column_item env dataset scope <$> cols)
                   ++ [(data_slicer env dataset [b], b)]))
               []).
Proof.
  intros Hpol Hd Hrest. unfold initial_state.
  destruct (next_operation_remove _ _ _ _ _ _ _ _ _ Hd) as (cols' & E & Hnd & Hrange).
  inversion E; subst cols'.
  erewrite while_tasks_step; [|discriminate|].
  2:{ rewrite (loop_body_eq _ _ _ _ _ REMOVE_UNINFORMATIVE_FEATURES (Some cols))
        by (rewrite Hpol; exact Hd).
      refine (handle_remove env (mkTask dataset 0 0 scope false false) cols
                            [Product [] [None]] [] (Product [] [None]) [None]
                            Hnd Hrange eq_refl eq_refl _).
      cbn. lia. }
  cbn [t_parent t_children_pos t_local_data t_scope length app insert list_insert
       obj_set_children].
  set (items := (column_item env dataset scope <$> cols)
                ++ [(data_slicer env dataset [b], b)]).
  assert (Hlen : length items = S (length cols)).
  { unfold items. rewrite length_app, length_fmap. cbn. lia. }
  assert (Hq : column_tasks env 1 0 dataset scope cols
               ++ [rest_task env 1 dataset scope cols]
               = leaf_tasks 1 0 items).
  { unfold items, leaf_tasks. rewrite imap_app. cbn [imap].
    rewrite column_tasks_leaf_tasks. unfold leaf_tasks, rest_task.
    rewrite Hrest, length_fmap. cbn [fst snd length Nat.eqb Nat.add].
    rewrite Nat.add_0_r. reflexivity. }
  rewrite Hq.
  pose proof (leaf_tasks_drain env m 0 1 scope Hpol items
                [Product [] [Some 1]; Product scope (replicate (S (length cols)) None)]
                []) as Hrun.
  rewrite Hlen in Hrun. cbn [length app] in Hrun. rewrite (Hrun eq_refl).
  unfold flat_heap. rewrite Hlen. reflexivity.
Qed.

(** X18: A call whose policy asks at once to remove all columns of the scope but
    one ends after one iteration per column and one more: a Product over the
    scope with a leaf for each removed column, in the order of the positions,
    and a last leaf for the column that is left.  That last leaf is made of
    the slice of the position [b] of the column, and its scope is the
    position [b] itself, not the identifier that the scope has at [b]. *)
Theorem remove_all_but_one_at_root (imp : Imports L W) (fuel : nat)
    (dataset : D) (ctx : Ctx) (sr sc : Splitter D Ctx W)
    (cl : D -> Ctx -> Scope -> L) (m : Z) (initial_scope : option Scope)
    (slicer : D -> list nat -> D) (cols : list nat) (b : nat) :
  let scope := default (seq 0 (shape1 dataset)) initial_scope in
  let env := mkEnv ctx sr sc cl (get_next_operation m) slicer in
  next_operation m dataset scope false false true true false
    = Ok (REMOVE_UNINFORMATIVE_FEATURES, Some cols) ->
  rest_positions scope cols = [b] ->
  S (length cols) < fuel ->
  learn_structure imp fuel (Some dataset) (Some ctx) (Some sr) (Some sc) (Some cl)
                  (Some (get_next_operation m)) initial_scope slicer
  = post_processed imp
      (flat_heap env scope
         ((column_item env dataset scope <$> cols) ++ [(slicer dataset [b], b)]))
      (Some 1).
Proof.
  intros scope env Hd Hrest Hfuel. unfold learn_structure.
  change (match initial_scope with Some s => s | None => seq 0 (shape1 dataset) end)
    with scope.
  cbv zeta. rewrite setup_eq. fold env.
  replace fuel with (S (S (length cols)) + (fuel - S (S (length cols)))) by lia.
  rewrite (while_tasks_more_fuel env 0 _ _ _ _
             (remove_root_drains env m _ _ _ _ eq_refl Hd Hrest)).
  rewrite (post_processing_eq imp _ _ (Some 1)) by reflexivity.
  unfold post_processed. cbv zeta.
  destruct (fst (is_valid imp _ _)); reflexivity.
Qed.
End LeafRunFacts.

(** * The shape of the nodes *)

Section NodeShapes.
Context {D : Type} `{NdArray D} {Ctx L W : Type}.

Local Abbreviation state := (State D L W).
Local Abbreviation env_t := (Env D Ctx L W).

(** X20: In every state the loop passes through, no Sum has exactly one child
    slot: SPLIT_ROWS makes a Sum only of a split into a number of triples
    other than one, and the number of slots of a node never changes once the
    node is allocated.  A Sum with no slot at all is possible: an empty split
    makes one. *)
Theorem sum_never_has_one_child (env : env_t) (dataset : D)
    (initial_scope : Scope) (st : state) :
  reachable env 0 (initial_state dataset initial_scope) st ->
  forall r s cs ws, heap st !! r = Some (Sum s cs ws) -> length cs <> 1.
Proof.
  induction 1 as [|st st' _ IH Hrun]; intros r s cs ws Hr.
  - destruct r as [|r]; cbn in Hr; [discriminate|].
    destruct r; discriminate.
  - destruct (loop_body_inv _ _ _ _ Hrun) as (t & rest & op & p & _ & _ & Hh).
    apply handle_inv in Hh.
    destruct (requeued env t op) as [t'|] eqn:Hreq.
    + subst st'. exact (IH _ _ _ _ Hr).
    + destruct Hh as (o & cs0 & new_obj & new_tasks & Ho & Hcs & _ & Hb & ->).
      cbn [heap] in Hr.
      destruct (lookup_after_fill _ _ _ _ _ _ _ _ _ Ho Hr)
        as [[-> Hx]|[(_ & _ & Hx)|[_ Hx]]].
      * destruct o as [s0 c0 w0|s0 c0|l0]; cbn in Hx, Hcs; try discriminate.
        inversion Hx; subst. inversion Hcs; subst.
        rewrite length_insert. exact (IH _ _ _ _ Ho).
      * exact (IH _ _ _ _ Hx).
      * subst new_obj. apply built_sum in Hb as (-> & _ & -> & _).
        cbn [requeued] in Hreq. rewrite length_replicate.
        destruct (length _ =? 1) eqn:E; [discriminate|].
        apply Nat.eqb_neq. exact E.
Qed.
End NodeShapes.

(** * The further theorems at concrete inputs *)

(** The state after the next iteration is one the call passes through. *)
Lemma ex_state_child_reachable :
  reachable ex_env_split 0 (initial_state ex_dataset [0; 1]) ex_state_child.
Proof.
  eapply reachable_iter; [exact ex_state_split_reachable|].
  exact ex_state_split_step.
Qed.

Lemma policy_raises_only_on_narrow_slice_witness :
  (exists op p,
     next_operation 3 ex_dataset [0; 1] false false true true false = Ok (op, p))
  /\
  next_operation 2 ex_dataset3 [5; 7; 9; 11] false false true true false
  = Raise IndexError
  /\ shape1 ex_dataset3 < length [5; 7; 9; 11].
Proof.
  split.
  - apply (proj1 (policy_raises_only_on_narrow_slice 3 ex_dataset [0; 1]
                    false false true true false)).
    simpl. lia.
  - assert (Hd : next_operation 2 ex_dataset3 [5; 7; 9; 11] false false true true false
                 = Raise IndexError) by (vm_compute; reflexivity).
    split; [exact Hd|].
    apply (proj2 (policy_raises_only_on_narrow_slice 2 ex_dataset3 [5; 7; 9; 11]
                    false false true true false) IndexError Hd).
Defined.

Lemma policy_parameter_only_for_remove_witness :
  let positions := zero_variance_positions ex_dataset3 (length [5; 7; 9]) in
  Some [0] = Some positions /\ positions <> [] /\
  length positions <> shape1 ex_dataset3 /\ length [5; 7; 9] <= shape1 ex_dataset3.
Proof.
  apply (policy_parameter_only_for_remove 2 ex_dataset3 [5; 7; 9]
           false false true true false REMOVE_UNINFORMATIVE_FEATURES (Some [0])).
  vm_compute. reflexivity.
Defined.


Lemma policy_wide_slice_all_constant_witness :
  next_operation 5 ex_wide [4; 9] false false true true false
  = Ok (REMOVE_UNINFORMATIVE_FEATURES, Some [0; 1]).
Proof.
  apply (policy_wide_slice_all_constant 5 ex_wide [4; 9]).
  - simpl. lia.
  - simpl. lia.
  - intros j Hj. destruct j as [|[|j]]; [reflexivity|reflexivity|simpl in Hj; lia].
Defined.

Lemma policy_without_constant_columns_witness :
  next_operation 3 ex_dataset [0; 1] false false true true false
  = Ok (SPLIT_ROWS, None).
Proof.
  refine (policy_without_constant_columns 3 ex_dataset [0; 1]
            false false true true false _ _).
  - simpl. lia.
  - intros j Hj. destruct j as [|[|j]]; [reflexivity|reflexivity|simpl in Hj; lia].
Defined.

Lemma pending_tasks_match_placeholders_witness :
  (forall t, t ∈ tasks ex_state_split ->
     slot (heap ex_state_split) (t_parent t) (t_children_pos t) = Some None)
  /\ NoDup (task_slot <$> tasks ex_state_split)
  /\ (forall r i, slot (heap ex_state_split) r i = Some None ->
        exists t, t ∈ tasks ex_state_split /\ task_slot t = (r, i)).
Proof.
  exact (pending_tasks_match_placeholders ex_env_split ex_dataset [0; 1]
           ex_state_split ex_state_split_reachable).
Defined.

Lemma heap_is_a_forest_witness :
  (forall r i c, slot (heap ex_state_child) r i = Some (Some c) ->
     r < c /\ is_Some (heap ex_state_child !! c))
  /\ (forall r i r' i' c,
        slot (heap ex_state_child) r i = Some (Some c) ->
        slot (heap ex_state_child) r' i' = Some (Some c) ->
        r = r' /\ i = i').
Proof.
  exact (heap_is_a_forest ex_env_split ex_dataset [0; 1] ex_state_child
           ex_state_child_reachable).
Defined.

Lemma drained_tree_complete_witness :
  exists c, Some 3 = Some c /\ 1 < c /\ is_Some (heap ex_state_final !! c).
Proof.
  exact (drained_tree_complete
           (mkEnv tt split_3_7 one_triple ex_create_leaf (get_next_operation 7)
                  default_slicer)
           ex_dataset (default (seq 0 (shape1 ex_dataset)) None) 25 ex_state_final
           ex_split_drains 1 1 (Some 3) eq_refl).
Defined.

Lemma iteration_fills_one_placeholder_witness :
  let st := ex_state_split in
  let st' := ex_state_child in
  let t := mkTask ex_lo 1 0 [0; 1] false false in
  let rest := [mkTask ex_hi 1 1 [0; 1] false false] in
  slot (heap st) (t_parent t) (t_children_pos t) = Some None
  /\
  ((heap st' = heap st /\
    exists t', tasks st' = rest ++ [t'] /\ task_slot t' = task_slot t)
   \/
   (length (heap st') = S (length (heap st)) /\
    (exists new_tasks, tasks st' = rest ++ new_tasks) /\
    (forall r i, r < length (heap st) ->
       slot (heap st') r i
       = if decide ((r, i) = task_slot t) then Some (Some (length (heap st)))
         else slot (heap st) r i) /\
    (forall r o, heap st !! r = Some o ->
       exists o', heap st' !! r = Some o' /\
                  obj_set_children o' [] = obj_set_children o []))).
Proof.
  exact (iteration_fills_one_placeholder ex_env_split ex_dataset [0; 1]
           ex_state_split ex_state_child
           (mkTask ex_lo 1 0 [0; 1] false false)
           [mkTask ex_hi 1 1 [0; 1] false false]
           ex_state_split_reachable eq_refl ex_state_split_step).
Defined.


Lemma split_rows_builds_sum_witness :
  loop_body ex_env_split 0
    (mkState [Product [] [None]] [mkTask ex_dataset 0 0 [0; 1] false false])
  = Ret tt ex_state_split.
Proof.
  refine (split_rows_builds_sum ex_env_split 0 [Product [] [None]]
            (mkTask ex_dataset 0 0 [0; 1] false false) [] None
            (Product [] [None]) [None] _ _ _ _ _).
  - vm_compute. reflexivity.
  - vm_compute. discriminate.
  - reflexivity.
  - reflexivity.
  - simpl. lia.
Defined.

Lemma split_cols_builds_product_witness :
  loop_body ex_env_cols 0
    (mkState [Product [] [None]] [mkTask ex_dataset 0 0 [4; 9] true false])
  = Ret tt
      (mkState [Product [] [Some 1]; Product [4; 9] [None; None]]
               [mkTask (nd_index_cols ex_dataset [0]) 1 0 [4] false false;
                mkTask (nd_index_cols ex_dataset [1]) 1 1 [9] false false]).
Proof.
  refine (split_cols_builds_product ex_env_cols 0 [Product [] [None]]
            (mkTask ex_dataset 0 0 [4; 9] true false) [] None
            (Product [] [None]) [None] _ _ _ _ _).
  - vm_compute. reflexivity.
  - vm_compute. discriminate.
  - reflexivity.
  - reflexivity.
  - simpl. lia.
Defined.


Lemma create_leaf_fills_slot_witness :
  loop_body ex_env_split 0
    (mkState [Product [] [Some 1]; Product [4; 9] [None; None]]
             [mkTask (default_slicer ex_lo [1]) 1 1 [9] true true])
  = Ret tt
      (mkState [Product [] [Some 1]; Product [4; 9] [None; Some 2];
                Leaf (mkExLeaf (default_slicer ex_lo [1]) [9])]
               []).
Proof.
  refine (create_leaf_fills_slot ex_env_split 0
            [Product [] [Some 1]; Product [4; 9] [None; None]]
            (mkTask (default_slicer ex_lo [1]) 1 1 [9] true true) [] None
            (Product [4; 9] [None; None]) [None; None] _ _ _ _).
  - vm_compute. reflexivity.
  - reflexivity.
  - reflexivity.
  - simpl. lia.
Defined.



Lemma single_column_is_one_leaf_witness :
  learn_structure ex_imports 25 (Some (nd_index_cols ex_dataset [1])) (Some tt)
                  (Some split_3_7) (Some one_triple) (Some ex_create_leaf)
                  (Some (get_next_operation 3)) None default_slicer
  = Finished (Some 1)
      (mkState [Product [] [Some 1];
                Leaf (mkExLeaf (nd_index_cols ex_dataset [1]) [0])]
               []).
Proof.
  pose proof (single_column_is_one_leaf ex_imports 25 (nd_index_cols ex_dataset [1])
                tt split_3_7 one_triple ex_create_leaf 3 None default_slicer) as Hthm.
  cbv zeta in Hthm. rewrite Hthm.
  - vm_compute. reflexivity.
  - reflexivity.
  - lia.
Defined.

Lemma remove_all_but_one_at_root_witness :
  learn_structure ex_imports 25 (Some ex_one_informative) (Some tt) (Some one_triple)
                  (Some one_triple) (Some ex_create_leaf)
                  (Some (get_next_operation 1)) (Some [5; 7]) default_slicer
  = Finished (Some 1)
      (mkState [Product [] [Some 1]; Product [5; 7] [Some 2; Some 3];
                Leaf (mkExLeaf (mk_ndarray [[7]; [7]; [7]]%Z 1) [5]);
                Leaf (mkExLeaf (mk_ndarray [[1]; [2]; [3]]%Z 1) [1])]
               []).
Proof.
  pose proof (remove_all_but_one_at_root ex_imports 25 ex_one_informative tt
                one_triple one_triple ex_create_leaf 1 (Some [5; 7]) default_slicer
                [0] 1) as Hthm.
  cbv zeta in Hthm. rewrite Hthm.
  - vm_compute. reflexivity.
  - vm_compute. reflexivity.
  - vm_compute. reflexivity.
  - simpl. lia.
Defined.

Lemma both_flags_single_column_witness :
  length (t_scope (mkTask (default_slicer ex_lo [0]) 2 0 [0] true true)) = 1.
Proof.
  apply (both_flags_single_column ex_env_split ex_dataset [0; 1] ex_state_child
           ex_state_child_reachable).
  - right. left.
  - reflexivity.
Defined.

Lemma sum_never_has_one_child_witness :
  (length [@None nat; None] =? 1) = false.
Proof.
  apply Nat.eqb_neq.
  exact (sum_never_has_one_child ex_env_split ex_dataset [0; 1] ex_state_split
           ex_state_split_reachable 1 [0; 1] [None; None]
           [(3 # 10)%Q; (7 # 10)%Q] eq_refl).
Defined.
